(** * Kurt: the fixed-object codec of [kurt/fixed_objects.py]

    A shallow embedding of the Squeak-derived fixed-format objects (byte
    strings, collections, dictionaries, colours, bitmaps and forms) and
    the properties their specification states about them.

    Conventions.
    - A Python 2 [str] and an [array('B')] are both [list byte]: [ord]
      gives the integer a character stands for, [to_B] stores an integer
      in an [array('B')], and [chr] of an element of an [array('B')] is
      that byte.
    - Python integers are [Z]; [/] on integers is floor division ([Z.div])
      and [%] takes the sign of the divisor ([Z.modulo]).
    - A Python exception is a value of [exn]; code that can raise returns a
      [result].
    - The layouts are written with the combinators of the external
      [construct] library; [Module Construct] gives the parsing side of the
      combinators the layouts use, by their documented meaning. *)

From Stdlib Require Import ZArith List Lia.
From Stdlib Require Import Init.Byte Strings.Byte.
From stdpp Require Import base gmap list.
Import ListNotations.

Local Open Scope Z_scope.

(** ** Python values *)

Module Py.

Inductive exn : Type :=
| ConstructError       (* construct: FieldError, ArrayError, SwitchError *)
| AssertionError
| ValueError
| IndexError
| StopIteration
| NotImplementedError
| ZeroDivisionError
| OverflowError.

Inductive result (A : Type) : Type :=
| Ok (a : A)
| Raise (e : exn).
Arguments Ok {A} a.
Arguments Raise {A} e.

Definition bind {A B} (m : result A) (k : A -> result B) : result B :=
  match m with
  | Ok a => k a
  | Raise e => Raise e
  end.

(** [construct] signals every parse failure with a [ConstructError]. *)
Definition of_parse {A} (o : option A) : result A :=
  match o with
  | Some a => Ok a
  | None => Raise ConstructError
  end.

(** [ord(c)] of a one-character string. *)
Definition ord (b : byte) : Z := Z.of_N (Byte.to_N b).

(** [array('B', [n])]: one unsigned byte, [OverflowError] when [n] does
    not fit. *)
Definition to_B (n : Z) : result byte :=
  if (0 <=? n) && (n <=? 255) then
    match Byte.of_N (Z.to_N n) with
    | Some b => Ok b
    | None => Raise OverflowError
    end
  else Raise OverflowError.

(** [l[i:j]] for [0 <= i <= j]. *)
Definition slice {A} (l : list A) (i j : nat) : list A :=
  take (j - i)%nat (drop i l).

(** [range(0, n, step)], as the list of its start offsets. *)
Fixpoint range_by (step : nat) (count : nat) (start : nat) : list nat :=
  match count with
  | O => []
  | S c => start :: range_by step c (start + step)%nat
  end.

Definition range0 (n step : nat) : list nat :=
  range_by step (Nat.div (n + step - 1) step) 0%nat.

End Py.

Import Py.

(** [result] and [option] are sequenced with stdpp's [x ← m; k]. *)
#[global] Instance result_ret : MRet result := fun _ a => Ok a.
#[global] Instance result_bind : MBind result := fun _ _ k m => Py.bind m k.

(** Two one-character strings are [==] when they are the same byte. *)
#[global] Instance byte_eq_dec : EqDecision byte := Byte.byte_eq_dec.

(** ** The [construct] combinators used by the layouts *)

Module Construct.

(** A parser consumes a prefix of the stream and returns what is left;
    [None] is a [ConstructError]. *)
Definition parser (A : Type) : Type := list byte -> option (A * list byte).

(** Big-endian unsigned value of a byte string. *)
Definition be_value (bs : list byte) : Z :=
  fold_left (fun acc b => acc * 256 + ord b) bs 0.

(** [Bytes(name, n)]: exactly [n] raw bytes. *)
Definition Bytes (n : nat) : parser (list byte) :=
  fun bs =>
    if (n <=? length bs)%nat then Some (take n bs, drop n bs) else None.

Definition UBInt8 : parser Z :=
  fun bs =>
    match bs with
    | b :: rest => Some (ord b, rest)
    | [] => None
    end.

Definition UBInt32 : parser Z :=
  fun bs =>
    match Bytes 4 bs with
    | Some (w, rest) => Some (be_value w, rest)
    | None => None
    end.

(** [Array(count, subcon)], imported as [StrictRepeater] and
    [MetaRepeater]: exactly [count] elements, an [ArrayError] when one of
    them fails. *)
Fixpoint Array {A} (count : nat) (subcon : parser A) : parser (list A) :=
  fun bs =>
    match count with
    | O => Some ([], bs)
    | S c =>
        match subcon bs with
        | Some (x, rest) =>
            match Array c subcon rest with
            | Some (xs, rest') => Some (x :: xs, rest')
            | None => None
            end
        | None => None
        end
    end.

(** [OptionalGreedyRepeater(subcon)]: elements until the first failure,
    which is swallowed and the stream rewound to where that element
    began.  [fuel] bounds the number of elements. *)
Fixpoint greedy {A} (fuel : nat) (subcon : parser A) (bs : list byte)
  : list A * list byte :=
  match fuel with
  | O => ([], bs)
  | S f =>
      match subcon bs with
      | Some (x, rest) =>
          let '(xs, rest') := greedy f subcon rest in (x :: xs, rest')
      | None => ([], bs)
      end
  end.

(** Every element of the layouts below consumes at least one byte, so
    the length of the stream is fuel enough. *)
Definition OptionalGreedyRepeater {A} (subcon : parser A)
  : parser (list A) :=
  fun bs => Some (greedy (length bs) subcon bs).

(** [Bits(name, n)] under a [BitStruct]: the stream seen as bits, most
    significant first. *)
Definition bits_of_byte (b : byte) : list bool :=
  map (fun i => Z.testbit (ord b) (Z.of_nat i)) [7; 6; 5; 4; 3; 2; 1; 0]%nat.

Definition bits_of_bytes (bs : list byte) : list bool :=
  concat (map bits_of_byte bs).

Definition bits_value (bits : list bool) : Z :=
  fold_left (fun acc (b : bool) => 2 * acc + (if b then 1 else 0)) bits 0.

Definition Bits (n : nat) (bits : list bool) : option (Z * list bool) :=
  if (n <=? length bits)%nat
  then Some (bits_value (take n bits), drop n bits)
  else None.

Fixpoint BitArray (count : nat) (n : nat) (bits : list bool)
  : option (list Z) :=
  match count with
  | O => Some []
  | S c =>
      match Bits n bits with
      | Some (x, rest) =>
          match BitArray c n rest with
          | Some xs => Some (x :: xs)
          | None => None
          end
      | None => None
      end
  end.

End Construct.

Import Construct.

(** ** Bitmap (classID 13) and its run-length coding *)

Module Bitmap.

(** [Bitmap(value)]: a byte string, read as a sequence of 32-bit words. *)
Record t : Type := Bitmap { value : list byte }.

(** [Bitmap._int]: one byte; above 223 either a second byte follows, or
    (for 255) a 32-bit value that replaces it. *)
Definition _int : parser Z :=
  fun bs =>
    '(_value, bs) ← UBInt8 bs;
    if 223 <? _value then
      if _value <=? 254 then
        '(_second_byte, bs) ← UBInt8 bs;
        Some ((_value - 224) * 256 + _second_byte, bs)
      else
        '(_value, bs) ← UBInt32 bs;
        Some (_value, bs)
    else Some (_value, bs).

(** One element of the repeater of [_length_run_coding]. *)
Record run : Type := Run {
  _value : Z;
  data_code : Z;
  run_length : Z;
  pixels : list (list byte)
}.

(** [StrictRepeater(get_run_length, Value("pixels", ...))]: the value,
    [run_length] times, without reading the stream. *)
Definition repeat_value (run_length : Z) (pixel : list byte)
  : list (list byte) :=
  replicate (Z.to_nat run_length) pixel.

Definition data : parser run :=
  fun bs =>
    '(_value, bs) ← _int bs;
    let data_code := _value mod 4 in
    let run_length := (_value - data_code) / 4 in
    match data_code with
    | 0 =>
        Some (Run _value data_code run_length
                (repeat_value run_length [x00; x00; x00; x00]), bs)
    | 1 =>
        '(_b, bs) ← Bytes 1 bs;
        Some (Run _value data_code run_length
                (repeat_value run_length (_b ++ _b ++ _b ++ _b)), bs)
    | 2 =>
        '(_pixel, bs) ← Bytes 4 bs;
        Some (Run _value data_code run_length
                (repeat_value run_length _pixel), bs)
    | 3 =>
        '(pixels, bs) ← Array (Z.to_nat run_length) (Bytes 4) bs;
        Some (Run _value data_code run_length pixels, bs)
    | _ => None
    end.

(** [Bitmap._length_run_coding]: the advisory length, then runs for as
    long as they parse. *)
Definition _length_run_coding : parser (Z * list run) :=
  fun bs =>
    '(length, bs) ← _int bs;
    '(runs, bs) ← OptionalGreedyRepeater data bs;
    Some ((length, runs), bs).

(** [Bitmap.from_byte_array(bytes)]. *)
Definition from_byte_array (bytes : list byte) : result t :=
  '(_, runs, _) ← of_parse (_length_run_coding bytes);
  mret (Bitmap (concat (map (fun run => concat (pixels run)) runs))).

End Bitmap.

(** ** Color (classID 30) and TranslucentColor (classID 31) *)

Module Color.

(** Each component is meant to lie between 0 and 1023. *)
Record t : Type := Color { r : Z; g : Z; b : Z }.

Definition value (self : t) : list Z := [r self; g self; b self].

(** [tuple(x >> 2 for x in self.value)]. *)
Definition to_8bit (self : t) : list Z :=
  map (fun x => Z.shiftr x 2) (value self).

Definition to_rgba_array (self : t) : result (list byte) :=
  match to_8bit self with
  | [r; g; b] => mapM to_B [r; g; b; 255]
  | _ => Raise ValueError
  end.

End Color.

Module TranslucentColor.

Record t : Type := TranslucentColor { r : Z; g : Z; b : Z; alpha : Z }.

Definition value (self : t) : list Z :=
  [r self; g self; b self; alpha self].

Definition to_8bit (self : t) : list Z :=
  map (fun x => Z.shiftr x 2) (value self).

Definition to_rgba_array (self : t) : result (list byte) :=
  mapM to_B (to_8bit self).

(** [_construct_32]: alpha, r, g, b, one byte each. *)
Definition _construct_32 : parser (Z * Z * Z * Z) :=
  fun bs =>
    '(alpha, bs) ← UBInt8 bs;
    '(r, bs) ← UBInt8 bs;
    '(g, bs) ← UBInt8 bs;
    '(b, bs) ← UBInt8 bs;
    Some ((alpha, r, g, b), bs).

(** [from_value(container)]. *)
Definition from_value (c : Z * Z * Z * Z) : t :=
  let '(alpha, r, g, b) := c in TranslucentColor r g b alpha.

Definition from_32bit_raw_argb (raw : list byte) : result t :=
  '(container, _) ← of_parse (_construct_32 raw);
  let parts := from_value container in
  match map (fun x => Z.shiftl x 2) (value parts) with
  | [r; g; b; alpha] =>
      let color := TranslucentColor r g b alpha in
      if (alpha =? 0) && ((0 <? r) || (0 <? g) || (0 <? b))
      then mret (TranslucentColor r g b 1023)
      else mret color
  | _ => Raise ValueError
  end.

End TranslucentColor.

(** An element of a palette: either class, told apart when
    [to_rgba_array] is dispatched. *)
Inductive palette_color : Type :=
| AColor (c : Color.t)
| ATranslucentColor (c : TranslucentColor.t).

Definition to_rgba_array (color : palette_color) : result (list byte) :=
  match color with
  | AColor c => Color.to_rgba_array c
  | ATranslucentColor c => TranslucentColor.to_rgba_array c
  end.

(** ** The default colour values used by Form *)

Definition squeak_color_data : list byte :=
    [
     xff; xff; xff; x00; x00; x00; xff; xff; xff; x80; x80; x80;
     xff; x00; x00; x00; xff; x00; x00; x00; xff; x00; xff; xff;
     xff; xff; x00; xff; x00; xff; x20; x20; x20; x40; x40; x40;
     x60; x60; x60; x9f; x9f; x9f; xbf; xbf; xbf; xdf; xdf; xdf;
     x08; x08; x08; x10; x10; x10; x18; x18; x18; x28; x28; x28;
     x30; x30; x30; x38; x38; x38; x48; x48; x48; x50; x50; x50;
     x58; x58; x58; x68; x68; x68; x70; x70; x70; x78; x78; x78;
     x87; x87; x87; x8f; x8f; x8f; x97; x97; x97; xa7; xa7; xa7;
     xaf; xaf; xaf; xb7; xb7; xb7; xc7; xc7; xc7; xcf; xcf; xcf;
     xd7; xd7; xd7; xe7; xe7; xe7; xef; xef; xef; xf7; xf7; xf7;
     x00; x00; x00; x00; x33; x00; x00; x66; x00; x00; x99; x00;
     x00; xcc; x00; x00; xff; x00; x00; x00; x33; x00; x33; x33;
     x00; x66; x33; x00; x99; x33; x00; xcc; x33; x00; xff; x33;
     x00; x00; x66; x00; x33; x66; x00; x66; x66; x00; x99; x66;
     x00; xcc; x66; x00; xff; x66; x00; x00; x99; x00; x33; x99;
     x00; x66; x99; x00; x99; x99; x00; xcc; x99; x00; xff; x99;
     x00; x00; xcc; x00; x33; xcc; x00; x66; xcc; x00; x99; xcc;
     x00; xcc; xcc; x00; xff; xcc; x00; x00; xff; x00; x33; xff;
     x00; x66; xff; x00; x99; xff; x00; xcc; xff; x00; xff; xff;
     x33; x00; x00; x33; x33; x00; x33; x66; x00; x33; x99; x00;
     x33; xcc; x00; x33; xff; x00; x33; x00; x33; x33; x33; x33;
     x33; x66; x33; x33; x99; x33; x33; xcc; x33; x33; xff; x33;
     x33; x00; x66; x33; x33; x66; x33; x66; x66; x33; x99; x66;
     x33; xcc; x66; x33; xff; x66; x33; x00; x99; x33; x33; x99;
     x33; x66; x99; x33; x99; x99; x33; xcc; x99; x33; xff; x99;
     x33; x00; xcc; x33; x33; xcc; x33; x66; xcc; x33; x99; xcc;
     x33; xcc; xcc; x33; xff; xcc; x33; x00; xff; x33; x33; xff;
     x33; x66; xff; x33; x99; xff; x33; xcc; xff; x33; xff; xff;
     x66; x00; x00; x66; x33; x00; x66; x66; x00; x66; x99; x00;
     x66; xcc; x00; x66; xff; x00; x66; x00; x33; x66; x33; x33;
     x66; x66; x33; x66; x99; x33; x66; xcc; x33; x66; xff; x33;
     x66; x00; x66; x66; x33; x66; x66; x66; x66; x66; x99; x66;
     x66; xcc; x66; x66; xff; x66; x66; x00; x99; x66; x33; x99;
     x66; x66; x99; x66; x99; x99; x66; xcc; x99; x66; xff; x99;
     x66; x00; xcc; x66; x33; xcc; x66; x66; xcc; x66; x99; xcc;
     x66; xcc; xcc; x66; xff; xcc; x66; x00; xff; x66; x33; xff;
     x66; x66; xff; x66; x99; xff; x66; xcc; xff; x66; xff; xff;
     x99; x00; x00; x99; x33; x00; x99; x66; x00; x99; x99; x00;
     x99; xcc; x00; x99; xff; x00; x99; x00; x33; x99; x33; x33;
     x99; x66; x33; x99; x99; x33; x99; xcc; x33; x99; xff; x33;
     x99; x00; x66; x99; x33; x66; x99; x66; x66; x99; x99; x66;
     x99; xcc; x66; x99; xff; x66; x99; x00; x99; x99; x33; x99;
     x99; x66; x99; x99; x99; x99; x99; xcc; x99; x99; xff; x99;
     x99; x00; xcc; x99; x33; xcc; x99; x66; xcc; x99; x99; xcc;
     x99; xcc; xcc; x99; xff; xcc; x99; x00; xff; x99; x33; xff;
     x99; x66; xff; x99; x99; xff; x99; xcc; xff; x99; xff; xff;
     xcc; x00; x00; xcc; x33; x00; xcc; x66; x00; xcc; x99; x00;
     xcc; xcc; x00; xcc; xff; x00; xcc; x00; x33; xcc; x33; x33;
     xcc; x66; x33; xcc; x99; x33; xcc; xcc; x33; xcc; xff; x33;
     xcc; x00; x66; xcc; x33; x66; xcc; x66; x66; xcc; x99; x66;
     xcc; xcc; x66; xcc; xff; x66; xcc; x00; x99; xcc; x33; x99;
     xcc; x66; x99; xcc; x99; x99; xcc; xcc; x99; xcc; xff; x99;
     xcc; x00; xcc; xcc; x33; xcc; xcc; x66; xcc; xcc; x99; xcc;
     xcc; xcc; xcc; xcc; xff; xcc; xcc; x00; xff; xcc; x33; xff;
     xcc; x66; xff; xcc; x99; xff; xcc; xcc; xff; xcc; xff; xff;
     xff; x00; x00; xff; x33; x00; xff; x66; x00; xff; x99; x00;
     xff; xcc; x00; xff; xff; x00; xff; x00; x33; xff; x33; x33;
     xff; x66; x33; xff; x99; x33; xff; xcc; x33; xff; xff; x33;
     xff; x00; x66; xff; x33; x66; xff; x66; x66; xff; x99; x66;
     xff; xcc; x66; xff; xff; x66; xff; x00; x99; xff; x33; x99;
     xff; x66; x99; xff; x99; x99; xff; xcc; x99; xff; xff; x99;
     xff; x00; xcc; xff; x33; xcc; xff; x66; xcc; xff; x99; xcc;
     xff; xcc; xcc; xff; xff; xcc; xff; x00; xff; xff; x33; xff;
     xff; x66; xff; xff; x99; xff; xff; xcc; xff; xff; xff; xff
    ].

(** The module-level loop that fills [squeak_colors]: for each offset [i]
    of [range(0, len(squeak_color_data), 4)], the slice
    [color = squeak_color_data[i:i+4]] and then the bytes of
    [color[i:i+4]]. *)
Definition squeak_colors : list (list byte) :=
  map (fun i =>
         let color := slice squeak_color_data i (i + 4) in
         slice color i (i + 4))
      (range0 (length squeak_color_data) 4).

(** ** Form (classID 34) *)

Module Form.

(** The attributes [Form.__init__] sets.  [width], [height] and [depth]
    are the numbers the fields hold; [bits] is the built Bitmap;
    [colors] is [None] unless a palette was given. *)
Record t : Type := Form {
  width : Z;
  height : Z;
  depth : Z;
  privateOffset : option Z;
  bits : Bitmap.t;
  colors : option (list palette_color)
}.

(** What a generator hands out on successive [next()] calls: a value per
    [yield], or the exception its body raised; the end of the list is
    [StopIteration].  Nothing is consumed past a raised exception. *)
Definition generator (A : Type) : Type := list (result A).

(** The [depth == 32] loop of [_to_pixels]: one word
    [(a, r, g, b)] per step of [range(0, len(pixel_bytes), 4)]; a
    shorter last slice cannot be unpacked. *)
Fixpoint _to_pixels_32 (pixel_bytes : list byte)
  : generator (list byte) :=
  match pixel_bytes with
  | [] => []
  | xa :: xr :: xg :: xb :: rest =>
      let '(a, r, g, b) := (ord xa, ord xr, ord xg, ord xb) in
      let a := if (a =? 0) && ((0 <? r) || (0 <? g) || (0 <? b))
               then 255 else a in
      mapM to_B [r; g; b; a] :: _to_pixels_32 rest
  | _ => [Raise ValueError]
  end.

(** [colors[pixel]]. *)
Definition getitem (colors : list (list byte)) (pixel : Z)
  : result (list byte) :=
  match colors !! Z.to_nat pixel with
  | Some color => Ok color
  | None => Raise IndexError
  end.

(** [BitStruct("", MetaRepeater(length, Bits("pixels", depth)))
    .parse(pixel_bytes).pixels].  The layout holds [depth * length]
    bits and [construct] parses whole bytes only.  Below 8192 bits the
    layout is parsed from a buffer of [size / 8] bytes: a size that is
    not a multiple of 8 is a SizeofError, and the buffer must be there
    to read.  From 8192 bits on it is parsed from a bit stream, which
    raises [ValueError] when it is closed after a number of bits that is
    not a multiple of 8. *)
Definition pixels_construct (depth length : Z) (pixel_bytes : list byte)
  : result (list Z) :=
  let size := depth * length in
  if negb (size mod 8 =? 0) then
    Raise (if size <? 8192 then ConstructError else ValueError)
  else if (size <? 8192)
          && (Z.of_nat (List.length pixel_bytes) <? size / 8) then
    Raise ConstructError
  else
    of_parse (BitArray (Z.to_nat length) (Z.to_nat depth)
                (bits_of_bytes pixel_bytes)).

(** The [depth <= 8] branch of [_to_pixels]. *)
Definition _to_pixels_indexed (self : t) : generator (list byte) :=
  let pixel_bytes := Bitmap.value (bits self) in
  match
    match colors self with
    | None => Ok squeak_colors
    | Some colors => mapM to_rgba_array colors
    end
  with
  | Raise e => [Raise e]
  | Ok colors =>
      if depth self =? 0 then [Raise ZeroDivisionError]
      else
        let length := Z.of_nat (length pixel_bytes) * 8 / depth self in
        match pixels_construct (depth self) length pixel_bytes with
        | Raise e => [Raise e]
        | Ok pixels => map (getitem colors) pixels
        end
  end.

Definition _to_pixels (self : t) : generator (list byte) :=
  if depth self =? 32 then _to_pixels_32 (Bitmap.value (bits self))
  else if depth self =? 16 then [Raise NotImplementedError]
  else if depth self <=? 8 then _to_pixels_indexed self
  else [].

(** [for i in xrange(skip): pixel = pixels.next()], outside any [try]. *)
Fixpoint skip_pixels {A} (skip : nat) (pixels : generator A)
  : result (generator A) :=
  match skip with
  | O => Ok pixels
  | S i =>
      match pixels with
      | [] => Raise StopIteration
      | Raise e :: _ => Raise e
      | Ok _ :: pixels => skip_pixels i pixels
      end
  end.

(** The [while 1] loop of [to_array]; the inner [fix] is [skip_pixels]
    followed by the next turn of the loop with [x = 0]. *)
Fixpoint while_1 (width : Z) (skip : nat) (pixels : generator (list byte))
    (x : Z) (rgba : list byte) {struct pixels} : result (list byte) :=
  match pixels with
  | [] => Ok rgba
  | Raise e :: _ => Raise e
  | Ok color :: pixels =>
      let rgba := rgba ++ color in
      let x := x + 1 in
      if width <=? x then
        (fix for_skip (i : nat) (pixels : generator (list byte))
             {struct pixels} : result (list byte) :=
           match i with
           | O => while_1 width skip pixels 0 rgba
           | S i =>
               match pixels with
               | [] => Raise StopIteration
               | Raise e :: _ => Raise e
               | Ok _ :: pixels => for_skip i pixels
               end
           end) skip pixels
      else while_1 width skip pixels x rgba
  end.

Definition to_array (self : t) : result (Z * Z * list byte) :=
  skip ←
    (if depth self <=? 8 then
       if depth self =? 0 then Raise ZeroDivisionError
       else
         let pixels_per_word := 32 / depth self in
         let pixels_in_last_word := width self mod pixels_per_word in
         Ok ((pixels_per_word - pixels_in_last_word) mod pixels_per_word)
     else Ok 0);
  rgba ← while_1 (width self) (Z.to_nat skip) (_to_pixels self) 0 [];
  mret (width self, height self, rgba).

(** The loop of [from_array]: each slice [rgba_array[i:i+4]] is
    unpacked as [(r, g, b, a)], which needs four elements, and appended
    as [a r g b]. *)
Fixpoint raw_of_rgba (rgba_array : list byte) : result (list byte) :=
  match rgba_array with
  | [] => Ok []
  | r :: g :: b :: a :: rest =>
      raw ← raw_of_rgba rest;
      mret (a :: r :: g :: b :: raw)
  | _ => Raise ValueError
  end.

Definition from_array (width height : Z) (rgba_array : list byte)
  : result t :=
  raw ← raw_of_rgba rgba_array;
  mret (Form width height 32 None (Bitmap.Bitmap raw) None).

End Form.

(** ** FixedObject and its equality *)

Module FixedObject.

(** The concrete classes of the module, by name. *)
Inductive class : Type :=
| String | Symbol | ByteArray | SoundBuffer | UTF8
| Array | OrderedCollection | Set_ | IdentitySet
| Dictionary | IdentityDictionary
| Color | TranslucentColor | Point | Rectangle
| Bitmap | Form | ColorForm.

#[global] Instance class_eq_dec : EqDecision class.
Proof. solve_decision. Defined.

Definition classID (c : class) : Z :=
  match c with
  | String => 9 | Symbol => 10 | ByteArray => 11 | SoundBuffer => 12
  | Bitmap => 13 | UTF8 => 14
  | Array => 20 | OrderedCollection => 21 | Set_ => 22 | IdentitySet => 23
  | Dictionary => 24 | IdentityDictionary => 25
  | Color => 30 | TranslucentColor => 31 | Point => 32 | Rectangle => 33
  | Form => 34 | ColorForm => 35
  end.

(** An instance: its class and its [value].  [V] is the type of the
    payload and its decidable equality is Python's [==] on payloads. *)
Record t (V : Type) : Type := FixedObject { __class__ : class; value : V }.
Arguments FixedObject {V} __class__ value.
Arguments __class__ {V} _.
Arguments value {V} _.

Definition __eq__ {V} `{EqDecision V} (self other : t V) : bool :=
  bool_decide (__class__ self = __class__ other)
  && bool_decide (value self = value other).

Definition __ne__ {V} `{EqDecision V} (self other : t V) : bool :=
  negb (__eq__ self other).

End FixedObject.

(** ** Containers: Collection (classIDs 20 to 23) and Dictionary (24, 25) *)

(** The [Container] a layout with a [length] and an [items] field parses
    to and is built from. *)
Module Container.
Record t (A : Type) : Type := Container { length : Z; items : list A }.
Arguments Container {A} length items.
Arguments length {A} _.
Arguments items {A} _.
End Container.

(** The building side of the two combinators the container layouts use. *)
Module Build.

Definition byte_of (n : Z) : byte :=
  default x00 (Byte.of_N (Z.to_N (n mod 256))).

(** [UBInt32.build(n)]: four bytes, most significant first; fails when
    [n] does not fit. *)
Definition UBInt32 (n : Z) : option (list byte) :=
  if (0 <=? n) && (n <? 2 ^ 32) then
    Some [byte_of (n / 2 ^ 24); byte_of (n / 2 ^ 16);
          byte_of (n / 2 ^ 8); byte_of n]
  else None.

(** [Array(count, subcon).build(items)]: an [ArrayError] unless there
    are exactly [count] items. *)
Definition Array {A} (count : Z) (subcon : A -> option (list byte))
    (items : list A) : option (list byte) :=
  if Z.of_nat (length items) =? count then
    recs ← mapM subcon items; Some (concat recs)
  else None.

End Build.

Section Containers.

(** [inline_objects.Field]: an inline value or a reference into the
    object table.  The codec only stores fields; dictionary keys need
    them hashable with an equality, as Python's [dict] does. *)
Context {Field : Type} {Field_eq : EqDecision Field}
        {Field_hash : Countable Field}.
Variable parse_Field : parser Field.
Variable build_Field : Field -> option (list byte).

(** [FixedObjectWithRepeater]. *)
Definition FixedObjectWithRepeater_to_value {A} (value : list A)
  : Container.t A :=
  Container.Container (Z.of_nat (length value)) value.

Definition FixedObjectWithRepeater_from_value {A} (obj : Container.t A)
  : result (list A) :=
  if Z.of_nat (length (Container.items obj)) =? Container.length obj
  then Ok (Container.items obj)
  else Raise AssertionError.

(** [Collection._construct]: a 32-bit length, then that many fields. *)
Definition Collection_parse : parser (Container.t Field) :=
  fun bs =>
    '(length, bs) ← UBInt32 bs;
    '(items, bs) ← Construct.Array (Z.to_nat length) parse_Field bs;
    Some (Container.Container length items, bs).

Definition Collection_build (obj : Container.t Field)
  : option (list byte) :=
  length ← Build.UBInt32 (Container.length obj);
  items ← Build.Array (Container.length obj) build_Field
            (Container.items obj);
  Some (length ++ items).

(** Reading a collection: the layout, then [from_construct]. *)
Definition Collection_decode (bs : list byte)
  : result (list Field * list byte) :=
  '(obj, rest) ← of_parse (Collection_parse bs);
  value ← FixedObjectWithRepeater_from_value obj;
  mret (value, rest).

(** Writing one: [to_construct], then the layout. *)
Definition Collection_encode (value : list Field) : option (list byte) :=
  Collection_build (FixedObjectWithRepeater_to_value value).

(** [Dictionary._construct]: a 32-bit length, then that many
    [(key, value)] pairs of fields. *)
Definition Dictionary_item : parser (Field * Field) :=
  fun bs =>
    '(key, bs) ← parse_Field bs;
    '(value, bs) ← parse_Field bs;
    Some ((key, value), bs).

Definition Dictionary_parse : parser (Container.t (Field * Field)) :=
  fun bs =>
    '(length, bs) ← UBInt32 bs;
    '(items, bs) ← Construct.Array (Z.to_nat length) Dictionary_item bs;
    Some (Container.Container length items, bs).

Definition Dictionary_item_build (item : Field * Field)
  : option (list byte) :=
  key ← build_Field item.1;
  value ← build_Field item.2;
  Some (key ++ value).

Definition Dictionary_build (obj : Container.t (Field * Field))
  : option (list byte) :=
  length ← Build.UBInt32 (Container.length obj);
  items ← Build.Array (Container.length obj) Dictionary_item_build
            (Container.items obj);
  Some (length ++ items).

(** [dict(pairs)]: the pairs are entered in order, a later pair
    replacing an earlier one with an equal key. *)
Definition dict (pairs : list (Field * Field)) : gmap Field Field :=
  foldl (fun d item => <[item.1 := item.2]> d) ∅ pairs.

(** [Dictionary.from_value]: no length check, and a [dict] as value. *)
Definition Dictionary_from_value (obj : Container.t (Field * Field))
  : gmap Field Field :=
  dict (Container.items obj).

(** [Dictionary.to_value]: the items of the dict, in its iteration
    order, and their number. *)
Definition Dictionary_to_value (value : gmap Field Field)
  : Container.t (Field * Field) :=
  let items := map_to_list value in
  Container.Container (Z.of_nat (length items)) items.

Definition Dictionary_decode (bs : list byte)
  : result (gmap Field Field * list byte) :=
  '(obj, rest) ← of_parse (Dictionary_parse bs);
  mret (Dictionary_from_value obj, rest).

Definition Dictionary_encode (value : gmap Field Field)
  : option (list byte) :=
  Dictionary_build (Dictionary_to_value value).

End Containers.

(** ** The run-length wire format, in the words of the specification *)

Module RunLength.

(** For a run with header value [V]. *)
Definition data_code (V : Z) : Z := V mod 4.
Definition run_length (V : Z) : Z := (V - data_code V) / 4.

(** [body V bytes words]: after a header of value [V], the body
    [bytes] stands for the 4-byte words [words]. *)
Inductive body (V : Z) : list byte -> list (list byte) -> Prop :=
| body_zero :
    data_code V = 0 ->
    body V [] (replicate (Z.to_nat (run_length V)) [x00; x00; x00; x00])
| body_byte (B : byte) :
    data_code V = 1 ->
    body V [B] (replicate (Z.to_nat (run_length V)) [B; B; B; B])
| body_word (W : list byte) :
    data_code V = 2 ->
    length W = 4%nat ->
    body V W (replicate (Z.to_nat (run_length V)) W)
| body_literal (Ws : list (list byte)) :
    data_code V = 3 ->
    length Ws = Z.to_nat (run_length V) ->
    Forall (fun W => length W = 4%nat) Ws ->
    body V (concat Ws) Ws.

(** [runs bytes wordss]: [bytes] is a sequence of runs, each a header
    read by [Bitmap._int] followed by its body, up to the end of the
    input; [wordss] lists the words of each run. *)
Inductive runs : list byte -> list (list (list byte)) -> Prop :=
| runs_end : runs [] []
| runs_run bytes V bytes_body rest words wordss :
    Bitmap._int bytes = Some (V, bytes_body ++ rest) ->
    body V bytes_body words ->
    runs rest wordss ->
    runs bytes (words :: wordss).

End RunLength.

(** ** The forgotten-alpha correction, in the words of the specification *)

(** An RGBA pixel whose alpha is 0 while a colour channel is nonzero gets
    alpha 255; every other byte stays. *)
Definition corrected_pixel (r g b a : byte) : list byte :=
  if bool_decide (ord a = 0 /\ (ord r <> 0 \/ ord g <> 0 \/ ord b <> 0))
  then [r; g; b; xff]
  else [r; g; b; a].

(** The same, pixel after pixel, over a flat RGBA array. *)
Fixpoint corrected (px : list byte) : list byte :=
  match px with
  | r :: g :: b :: a :: rest => corrected_pixel r g b a ++ corrected rest
  | _ => px
  end.

(** ** Scanlines, in the words of the specification *)

Definition pixels_per_word (depth : Z) : Z := 32 / depth.

(** The number of decoded indices that pad a scanline of [width] pixels
    to whole 32-bit words. *)
Definition row_padding (depth width : Z) : Z :=
  (pixels_per_word depth - width mod pixels_per_word depth)
  mod pixels_per_word depth.

(** The palette [_to_pixels] indexes: the default table when [colors] is
    absent, else the 8-bit RGBA array of each colour. *)
Definition palette_of (self : Form.t) : result (list (list byte)) :=
  match Form.colors self with
  | None => Ok squeak_colors
  | Some colors => mapM to_rgba_array colors
  end.

(** The indices [_to_pixels] reads from the bits of a Form, when it
    reads them: [None] when the depth is 0 or the parse raises. *)
Definition indices_of (self : Form.t) : option (list Z) :=
  let pixel_bytes := Bitmap.value (Form.bits self) in
  if Form.depth self =? 0 then None
  else
    match Form.pixels_construct (Form.depth self)
            (Z.of_nat (length pixel_bytes) * 8 / Form.depth self)
            pixel_bytes with
    | Ok pixels => Some pixels
    | Raise _ => None
    end.

(** The colour of an index, for an index the palette has. *)
Definition color_at (palette : list (list byte)) (i : Z) : list byte :=
  default [] (palette !! Z.to_nat i).

(** The bytes of a scanline: the colours of its first [width] indices. *)
Definition row_bytes (palette : list (list byte)) (width : Z) (row : list Z)
  : list byte :=
  concat (map (color_at palette) (take (Z.to_nat width) row)).

(** ** Further parts of the module *)

(** [Bitmap.to_value]: the bytes, and as length their number of 32-bit
    words, [(len(self.value) + 2) / 4]. *)
Definition Bitmap_to_value (self : Bitmap.t) : Container.t byte :=
  Container.Container
    ((Z.of_nat (length (Bitmap.value self)) + 2) / 4)
    (Bitmap.value self).

(** [runs_then tail bytes wordss]: [bytes] is a sequence of whole runs,
    whose words [wordss] lists, followed by [tail]. *)
Inductive runs_then (tail : list byte)
  : list byte -> list (list (list byte)) -> Prop :=
| runs_then_tail : runs_then tail tail []
| runs_then_run bytes V bytes_body rest words wordss :
    Bitmap._int bytes = Some (V, bytes_body ++ rest) ->
    RunLength.body V bytes_body words ->
    runs_then tail rest wordss ->
    runs_then tail bytes (words :: wordss).

(** [PascalString(name, length_field=UBInt32("length"))], the layout of
    String, Symbol and ByteArray: a 32-bit length, then that many
    bytes. *)
Definition PascalString_parse : parser (list byte) :=
  fun bs =>
    '(length, bs) ← UBInt32 bs;
    Bytes (Z.to_nat length) bs.

Definition PascalString_build (value : list byte) : option (list byte) :=
  length ← Build.UBInt32 (Z.of_nat (length value));
  Some (length ++ value).

(** A field for examples: an integer from 0 to 255, held in one byte. *)
Definition byte_field_build (n : Z) : option (list byte) :=
  if (0 <=? n) && (n <=? 255) then Some [Build.byte_of n] else None.

(** [Color._construct]: a [BitStruct] of 32 bits, two bits of padding
    and then [r], [g] and [b] on ten bits each.  The value parsed is the
    Container [Color.from_value] takes. *)
Definition Color_construct : parser (Z * Z * Z) :=
  fun bs =>
    '(word, bs) ← Bytes 4 bs;
    let bits := bits_of_bytes word in
    '(_, bits) ← Bits 2 bits;
    '(r, bits) ← Bits 10 bits;
    '(g, bits) ← Bits 10 bits;
    '(b, bits) ← Bits 10 bits;
    Some ((r, g, b), bs).

(** Reading a Color: the layout, then [from_value]. *)
Definition Color_decode (bs : list byte) : result (Color.t * list byte) :=
  '(r, g, b, rest) ← of_parse (Color_construct bs);
  mret (Color.Color r g b, rest).

(** [TranslucentColor._construct]: the layout of Color, embedded, then
    [alpha] in one byte. *)
Definition TranslucentColor_construct : parser (Z * Z * Z * Z) :=
  fun bs =>
    '(r, g, b, bs) ← Color_construct bs;
    '(alpha, bs) ← UBInt8 bs;
    Some ((r, g, b, alpha), bs).

Definition TranslucentColor_decode (bs : list byte)
  : result (TranslucentColor.t * list byte) :=
  '(r, g, b, alpha, rest) ← of_parse (TranslucentColor_construct bs);
  mret (TranslucentColor.TranslucentColor r g b alpha, rest).

(** [Form.built]: what it leaves in [self.bits].  [bits] is what the
    field holds when the Form is read: a ByteArray of run-length data, a
    Bitmap, or an object that is neither. *)
Inductive bits_object : Type :=
| BitsByteArray (value : list byte)
| BitsBitmap (bitmap : Bitmap.t)
| BitsOther.

Definition built (bits : bits_object) : result bits_object :=
  bits ← match bits with
         | BitsByteArray value =>
             bitmap ← Bitmap.from_byte_array value; mret (BitsBitmap bitmap)
         | _ => Ok bits
         end;
  match bits with
  | BitsBitmap _ => Ok bits
  | _ => Raise AssertionError
  end.

(** [Form.load_png], after the file is read: [width], [height],
    [color_array] and the two entries of [metadata] it looks at are what
    [png.Reader(filename=path).read_flat()] returned.  Adding the integer
    255 to an [array] is a [TypeError], the one exception of this
    function that is not an [exn]. *)
Inductive load_png_outcome : Type :=
| TypeError
| Loaded (form : result Form.t).

Fixpoint load_png_loop (alpha : bool) (pixel_size : nat)
    (color_array : list byte) (offsets : list nat) (rgba_array : list byte)
  : option (list byte) :=
  match offsets with
  | [] => Some rgba_array
  | i :: offsets =>
      let rgba_array :=
        rgba_array ++ slice color_array i (i + pixel_size) in
      if alpha
      then load_png_loop alpha pixel_size color_array offsets rgba_array
      else None
  end.

Definition load_png (width height : Z) (color_array : list byte)
    (bitdepth : Z) (alpha : bool) : load_png_outcome :=
  if negb (bitdepth =? 8) then Loaded (Raise ValueError)
  else
    let pixel_size := if alpha then 4%nat else 3%nat in
    match load_png_loop alpha pixel_size color_array
            (range0 (length color_array) pixel_size) [] with
    | None => TypeError
    | Some rgba_array => Loaded (Form.from_array width height rgba_array)
    end.








(** * Properties *)

(** ** Bytes *)

Lemma ord_range (b : byte) : 0 <= ord b <= 255.
Proof.
  unfold ord. pose proof (Byte.to_N_bounded b). lia.
Qed.

Lemma of_N_ord (b : byte) : Byte.of_N (Z.to_N (ord b)) = Some b.
Proof.
  unfold ord. rewrite N2Z.id. apply Byte.of_to_N.
Qed.

Lemma to_B_ord (b : byte) : to_B (ord b) = Ok b.
Proof.
  unfold to_B. pose proof (ord_range b).
  replace (0 <=? ord b) with true by (symmetry; apply Z.leb_le; lia).
  replace (ord b <=? 255) with true by (symmetry; apply Z.leb_le; lia).
  simpl. now rewrite of_N_ord.
Qed.

Lemma ord_inj (a b : byte) : ord a = ord b -> a = b.
Proof.
  intros E. pose proof (of_N_ord a) as Ha. rewrite E, of_N_ord in Ha.
  congruence.
Qed.

Lemma be_value_4 (b0 b1 b2 b3 : byte) :
  be_value [b0; b1; b2; b3]
  = ord b0 * 2 ^ 24 + ord b1 * 2 ^ 16 + ord b2 * 2 ^ 8 + ord b3.
Proof. unfold be_value. simpl. lia. Qed.

(** ** The variable-length integer *)

Lemma int_one_byte (b : byte) (rest : list byte) :
  ord b <= 223 -> Bitmap._int (b :: rest) = Some (ord b, rest).
Proof.
  intros Hb. unfold Bitmap._int. cbn.
  destruct (223 <? ord b) eqn:E; [apply Z.ltb_lt in E; lia | reflexivity].
Qed.

(** C4.  The variable-length integer decoder [Bitmap._int] returns the
    first byte [b] itself when [b <= 223]; [(b - 224) * 256 + c], with [c]
    the next byte, when [224 <= b <= 254]; and the big-endian unsigned
    32-bit value of the next four bytes when [b = 255].  In each case the
    stream continues right after the bytes read. *)
Theorem int_value (b : byte) (rest : list byte) :
  (ord b <= 223 -> Bitmap._int (b :: rest) = Some (ord b, rest))
  /\ (forall c, 224 <= ord b <= 254 ->
        Bitmap._int (b :: c :: rest)
        = Some ((ord b - 224) * 256 + ord c, rest))
  /\ (forall b0 b1 b2 b3, ord b = 255 ->
        Bitmap._int (b :: b0 :: b1 :: b2 :: b3 :: rest)
        = Some (ord b0 * 2 ^ 24 + ord b1 * 2 ^ 16 + ord b2 * 2 ^ 8 + ord b3,
                rest)
        /\ 0 <= ord b0 * 2 ^ 24 + ord b1 * 2 ^ 16 + ord b2 * 2 ^ 8 + ord b3
           < 2 ^ 32).
Proof.
  split; [|split].
  - apply int_one_byte.
  - intros c Hb. unfold Bitmap._int. cbn.
    destruct (223 <? ord b) eqn:E; [| apply Z.ltb_ge in E; lia].
    destruct (ord b <=? 254) eqn:E'; [reflexivity | apply Z.leb_gt in E'; lia].
  - intros b0 b1 b2 b3 Hb. split.
    + unfold Bitmap._int. cbn.
      destruct (223 <? ord b) eqn:E; [| apply Z.ltb_ge in E; lia].
      destruct (ord b <=? 254) eqn:E'; [apply Z.leb_le in E'; lia |].
      rewrite take_0, drop_0. cbn. do 2 f_equal. lia.
    + pose proof (ord_range b0). pose proof (ord_range b1).
      pose proof (ord_range b2). pose proof (ord_range b3). lia.
Qed.

Lemma int_value_witness :
  Bitmap._int [x2a; x07] = Some (42, [x07])
  /\ Bitmap._int [xe1; x02; x07] = Some (258, [x07])
  /\ Bitmap._int [xff; x00; x01; x00; x02; x07] = Some (65538, [x07]).
Proof.
  split; [|split].
  - apply (proj1 (int_value x2a [x07])). vm_compute. discriminate.
  - apply (proj1 (proj2 (int_value xe1 [x07])) x02).
    split; vm_compute; discriminate.
  - apply (proj2 (proj2 (int_value xff [x07])) x00 x01 x00 x02).
    reflexivity.
Defined.

(** ** Colours *)

(** C7.  [TranslucentColor.from_32bit_raw_argb] on four bytes
    (alpha, r, g, b) shifts each component left by two bits (8 to 10
    bits) and then, if the shifted alpha is 0 while a shifted r, g or b is
    nonzero, sets alpha to 1023; a nonzero alpha, or an alpha with r, g
    and b all zero, is kept as shifted.  Raw bytes (0, 10, 0, 0) give
    alpha 1023. *)
Theorem from_32bit_raw_argb_forgotten_alpha (xa xr xg xb : byte) :
  let a := Z.shiftl (ord xa) 2 in
  let r := Z.shiftl (ord xr) 2 in
  let g := Z.shiftl (ord xg) 2 in
  let b := Z.shiftl (ord xb) 2 in
  (exists color,
     TranslucentColor.from_32bit_raw_argb [xa; xr; xg; xb] = Ok color
     /\ TranslucentColor.r color = r
     /\ TranslucentColor.g color = g
     /\ TranslucentColor.b color = b
     /\ (a = 0 -> r <> 0 \/ g <> 0 \/ b <> 0 ->
         TranslucentColor.alpha color = 1023)
     /\ (a <> 0 \/ (r = 0 /\ g = 0 /\ b = 0) ->
         TranslucentColor.alpha color = a))
  /\ (0 <= a <= 1023 /\ 0 <= r <= 1023 /\ 0 <= g <= 1023 /\ 0 <= b <= 1023)
  /\ TranslucentColor.from_32bit_raw_argb [x00; x0a; x00; x00]
     = Ok (TranslucentColor.TranslucentColor 40 0 0 1023).
Proof.
  intros a r g b.
  assert (Hs : forall x : byte,
             Z.shiftl (ord x) 2 = ord x * 4 /\ 0 <= ord x * 4 <= 1023).
  { intros x. rewrite Z.shiftl_mul_pow2 by lia.
    pose proof (ord_range x). change (2 ^ 2) with 4. lia. }
  destruct (Hs xa) as [Ea Ra], (Hs xr) as [Er Rr],
           (Hs xg) as [Eg Rg], (Hs xb) as [Eb Rb].
  split; [|split].
  - unfold TranslucentColor.from_32bit_raw_argb. cbn.
    fold a r g b.
    destruct ((a =? 0) && ((0 <? r) || (0 <? g) || (0 <? b))) eqn:E.
    + eexists; split; [reflexivity|]. cbn.
      apply andb_true_iff in E as [E1 E2]. apply Z.eqb_eq in E1.
      repeat split; try reflexivity; intros; lia.
    + eexists; split; [reflexivity|]. cbn.
      repeat split; try reflexivity.
      intros Ha Hc. exfalso.
      apply andb_false_iff in E as [E | E].
      * apply Z.eqb_neq in E. lia.
      * apply orb_false_iff in E as [E E3].
        apply orb_false_iff in E as [E1 E2].
        apply Z.ltb_ge in E1, E2, E3. subst a r g b. lia.
  - subst a r g b. lia.
  - reflexivity.
Qed.

Lemma from_32bit_raw_argb_forgotten_alpha_witness :
  exists color,
    TranslucentColor.from_32bit_raw_argb [x00; x0a; x00; x00] = Ok color
    /\ TranslucentColor.alpha color = 1023.
Proof.
  destruct (proj1 (from_32bit_raw_argb_forgotten_alpha x00 x0a x00 x00))
    as (color & E & _ & _ & _ & Hforce & _).
  exists color. split; [exact E|].
  apply Hforce; [reflexivity | left; vm_compute; discriminate].
Defined.

(** ** Forms *)

(** C8.  For every Form whose depth is 16, [to_array] raises
    [NotImplementedError]: it returns no pixel array, whatever the bits,
    the dimensions and the palette are. *)
Theorem to_array_depth_16 (self : Form.t) :
  Form.depth self = 16 ->
  Form.to_array self = Raise NotImplementedError
  /\ (forall out, Form.to_array self <> Ok out).
Proof.
  intros Hd.
  assert (E : Form.to_array self = Raise NotImplementedError).
  { unfold Form.to_array, Form._to_pixels. rewrite Hd. reflexivity. }
  split; [exact E | intros out; rewrite E; discriminate].
Qed.

Lemma to_array_depth_16_witness :
  Form.to_array
    (Form.Form 2 1 16 None (Bitmap.Bitmap [x7c; x00; x03; xe0]) None)
  = Raise NotImplementedError.
Proof.
  apply (to_array_depth_16
           (Form.Form 2 1 16 None (Bitmap.Bitmap [x7c; x00; x03; xe0]) None)).
  reflexivity.
Defined.

(** C6.  The default colour table as the module builds it: 192 entries,
    the first one the four bytes (255, 255, 255, 0) and every other one
    empty, so that a depth-8 pixel with index 1 contributes no byte to
    [to_array] and an index from 192 on raises [IndexError]. *)
Theorem squeak_colors_as_built :
  length squeak_colors = 192%nat
  /\ squeak_colors !! 0%nat = Some [xff; xff; xff; x00]
  /\ drop 1 squeak_colors = replicate 191 []
  /\ Form.to_array
       (Form.Form 1 1 8 None (Bitmap.Bitmap [x01; x00; x00; x00]) None)
     = Ok (1, 1, [])
  /\ Form.to_array
       (Form.Form 1 1 8 None (Bitmap.Bitmap [x00; x00; x00; x00]) None)
     = Ok (1, 1, [xff; xff; xff; x00])
  /\ Form.to_array
       (Form.Form 1 1 8 None (Bitmap.Bitmap [xc0; x00; x00; x00]) None)
     = Raise IndexError.
Proof. repeat split; vm_compute; reflexivity. Qed.

(** ** Equality of fixed objects *)

(** C10.  [FixedObject.__eq__] is class-sensitive: two objects are equal
    exactly when they have the same class and equal values; a String, a
    Symbol and a ByteArray with the same bytes are pairwise unequal. *)
Theorem eq_class_sensitive :
  (forall (V : Type) (EqV : EqDecision V) (self other : FixedObject.t V),
      FixedObject.__eq__ self other = true
      <-> FixedObject.__class__ self = FixedObject.__class__ other
          /\ FixedObject.value self = FixedObject.value other)
  /\ (forall (V : Type) (EqV : EqDecision V) (self other : FixedObject.t V),
         FixedObject.__ne__ self other = negb (FixedObject.__eq__ self other))
  /\ (forall s : list byte,
         let string := FixedObject.FixedObject FixedObject.String s in
         let symbol := FixedObject.FixedObject FixedObject.Symbol s in
         let bytearray := FixedObject.FixedObject FixedObject.ByteArray s in
         FixedObject.__eq__ string symbol = false
         /\ FixedObject.__eq__ symbol string = false
         /\ FixedObject.__eq__ string bytearray = false
         /\ FixedObject.__eq__ bytearray string = false
         /\ FixedObject.__eq__ symbol bytearray = false
         /\ FixedObject.__eq__ bytearray symbol = false
         /\ FixedObject.__eq__ string string = true
         /\ FixedObject.__eq__ symbol symbol = true
         /\ FixedObject.__eq__ bytearray bytearray = true).
Proof.
  split; [|split].
  - intros V EqV self other. unfold FixedObject.__eq__.
    rewrite andb_true_iff, !bool_decide_eq_true. reflexivity.
  - reflexivity.
  - intros s string symbol bytearray. unfold FixedObject.__eq__.
    repeat split;
      first [ apply andb_true_iff; split; apply bool_decide_eq_true_2;
              reflexivity
            | apply andb_false_iff; left; apply bool_decide_eq_false_2;
              discriminate ].
Qed.

Lemma eq_class_sensitive_witness :
  FixedObject.__eq__ (FixedObject.FixedObject FixedObject.String [x61; x62])
                     (FixedObject.FixedObject FixedObject.String [x61; x62])
  = true
  /\ FixedObject.__eq__
       (FixedObject.FixedObject FixedObject.String [x61; x62])
       (FixedObject.FixedObject FixedObject.Symbol [x61; x62])
     = false.
Proof.
  split.
  - apply (proj1 eq_class_sensitive (list byte) _). split; reflexivity.
  - apply (proj2 (proj2 eq_class_sensitive) [x61; x62]).
Defined.

(** ** The run-length coding of bitmaps *)

Section RunLengthDecoding.

Lemma Bytes_app (w rest : list byte) :
  Bytes (length w) (w ++ rest) = Some (w, rest).
Proof.
  unfold Bytes. rewrite length_app.
  replace (length w <=? length w + length rest)%nat with true
    by (symmetry; apply Nat.leb_le; lia).
  now rewrite take_app_length, drop_app_length.
Qed.

Lemma Array_Bytes_concat (ws : list (list byte)) (rest : list byte) :
  Forall (fun w => length w = 4%nat) ws ->
  Array (length ws) (Bytes 4) (concat ws ++ rest) = Some (ws, rest).
Proof.
  induction 1 as [| w ws Hw _ IH]; [reflexivity|].
  cbn [length concat Array]. rewrite <- app_assoc, <- Hw, Bytes_app.
  rewrite Hw, IH. reflexivity.
Qed.

(** A header takes at least one byte off the stream. *)
Lemma int_consumes (bs rest : list byte) (V : Z) :
  Bitmap._int bs = Some (V, rest) -> (length rest < length bs)%nat.
Proof.
  unfold Bitmap._int, UBInt32, Bytes, UBInt8.
  destruct bs as [| b bs]; [discriminate|]. cbn -[Nat.leb].
  destruct (223 <? ord b).
  - destruct (ord b <=? 254).
    + destruct bs as [| c bs]; cbn; [discriminate|].
      intros [= _ <-]. cbn. lia.
    + destruct (4 <=? length bs)%nat eqn:E; cbn; [|discriminate].
      intros [= _ <-]. rewrite length_drop. cbn. lia.
  - intros [= _ <-]. lia.
Qed.

Lemma int_nonneg (bs rest : list byte) (V : Z) :
  Bitmap._int bs = Some (V, rest) -> 0 <= V.
Proof.
  unfold Bitmap._int, UBInt32, Bytes, UBInt8.
  destruct bs as [| b bs]; [discriminate|]. cbn -[Nat.leb].
  pose proof (ord_range b).
  destruct (223 <? ord b) eqn:E1.
  - apply Z.ltb_lt in E1. destruct (ord b <=? 254).
    + destruct bs as [| c bs]; cbn; [discriminate|].
      intros [= <- _]. pose proof (ord_range c). lia.
    + destruct (4 <=? length bs)%nat eqn:E; cbn; [|discriminate].
      intros [= <- _]. unfold be_value.
      generalize (take 4 bs). intros l.
      assert (G : forall acc, 0 <= acc ->
                0 <= fold_left (fun acc b => acc * 256 + ord b) l acc).
      { induction l as [| x l IH]; intros acc Hacc; cbn; [lia|].
        apply IH. pose proof (ord_range x). lia. }
      apply G. lia.
  - intros [= <- _]. lia.
Qed.

(** One run: what [Bitmap.data] reads after a header of value [V]. *)
Lemma data_run (bs body rest : list byte) (V : Z) words :
  Bitmap._int bs = Some (V, body ++ rest) ->
  RunLength.body V body words ->
  Bitmap.data bs
  = Some (Bitmap.Run V (RunLength.data_code V) (RunLength.run_length V)
            words, rest).
Proof.
  intros Hint Hbody. unfold Bitmap.data. rewrite Hint. cbn.
  destruct Hbody as [Hc | B Hc | W Hc HW | Ws Hc Hn HWs];
    unfold RunLength.run_length, RunLength.data_code in *;
    rewrite Hc in *; cbn -[Bytes Array].
  - reflexivity.
  - reflexivity.
  - rewrite <- HW at 1. rewrite Bytes_app. reflexivity.
  - rewrite <- Hn, Array_Bytes_concat by assumption. reflexivity.
Qed.

Lemma greedy_runs (bs : list byte) wordss :
  RunLength.runs bs wordss ->
  forall fuel, (length bs <= fuel)%nat ->
  exists rs,
    greedy fuel Bitmap.data bs = (rs, [])
    /\ map Bitmap.pixels rs = wordss.
Proof.
  induction 1 as [| bs V body rest words wordss Hint Hbody _ IH];
    intros fuel Hfuel.
  - exists []. destruct fuel; split; reflexivity.
  - pose proof (int_consumes _ _ _ Hint) as Hlt.
    destruct fuel as [| fuel]; [lia|].
    destruct (IH fuel) as (rs & E & Hrs).
    { rewrite length_app in Hlt. lia. }
    cbn [greedy]. rewrite (data_run _ _ _ _ _ Hint Hbody), E.
    eexists; split; [reflexivity|]. cbn. now rewrite Hrs.
Qed.

End RunLengthDecoding.

(** C3.  After a header of value [V], with [data_code = V mod 4] and
    [run_length = (V - data_code) / 4], a run decodes to [run_length]
    zero words (code 0), [run_length] copies of the word made of the one
    following byte four times (code 1), [run_length] copies of the one
    following word (code 2), or the [run_length] following words as they
    are (code 3); [Bitmap.from_byte_array] returns the words of all runs
    concatenated in run order.  A header 14 (code 2, length 3) followed by
    a word [W] gives [W W W]; a header 11 (code 3, length 2) followed by
    eight bytes gives those eight bytes. *)
Theorem from_byte_array_runs :
  (forall bs V body rest words,
      Bitmap._int bs = Some (V, body ++ rest) ->
      RunLength.body V body words ->
      exists run,
        Bitmap.data bs = Some (run, rest)
        /\ Bitmap.data_code run = V mod 4
        /\ Bitmap.run_length run = (V - V mod 4) / 4
        /\ 0 <= Bitmap.run_length run
        /\ V = 4 * Bitmap.run_length run + Bitmap.data_code run
        /\ Bitmap.pixels run = words)
  /\ (forall bs length rest wordss,
         Bitmap._int bs = Some (length, rest) ->
         RunLength.runs rest wordss ->
         Bitmap.from_byte_array bs
         = Ok (Bitmap.Bitmap (concat (map (fun words => concat words) wordss))))
  /\ (forall (length : byte) (W : list byte),
         ord length <= 223 ->
         List.length W = 4%nat ->
         Bitmap.from_byte_array (length :: x0e :: W)
         = Ok (Bitmap.Bitmap (W ++ W ++ W)))
  /\ (forall b0 b1 b2 b3 b4 b5 b6 b7 : byte,
         Bitmap.from_byte_array [x02; x0b; b0; b1; b2; b3; b4; b5; b6; b7]
         = Ok (Bitmap.Bitmap [b0; b1; b2; b3; b4; b5; b6; b7])).
Proof.
  split; [|split; [|split]].
  - intros bs V body rest words Hint Hbody.
    eexists. split; [exact (data_run _ _ _ _ _ Hint Hbody)|]. cbn.
    unfold RunLength.run_length, RunLength.data_code.
    pose proof (int_nonneg _ _ _ Hint).
    pose proof (Z.mod_pos_bound V 4 ltac:(lia)).
    pose proof (Z.mod_le V 4 ltac:(lia) ltac:(lia)).
    repeat split; try reflexivity.
    + apply Z.div_pos; lia.
    + pose proof (Z.div_mod V 4 ltac:(lia)) as Hdm.
      replace ((V - V mod 4) / 4) with (V / 4); [lia|].
      replace (V - V mod 4) with (V / 4 * 4) by lia.
      now rewrite Z.div_mul.
  - intros bs len rest wordss Hint Hruns.
    unfold Bitmap.from_byte_array, Bitmap._length_run_coding,
      OptionalGreedyRepeater.
    rewrite Hint. cbn.
    destruct (greedy_runs _ _ Hruns (length rest)) as (rs & E & Hrs);
      [lia|].
    rewrite E. cbn. rewrite <- Hrs, map_map. reflexivity.
  - intros len W Hlen HW.
    destruct W as [| w0 [| w1 [| w2 [| w3 [| ? ?]]]]]; try discriminate.
    unfold Bitmap.from_byte_array, Bitmap._length_run_coding.
    rewrite (int_one_byte len _ Hlen). reflexivity.
  - reflexivity.
Qed.

Lemma from_byte_array_runs_witness :
  Bitmap.from_byte_array [x03; x0e; x0a; x0b; x0c; x0d; x09; x07; x04]
  = Ok (Bitmap.Bitmap [x0a; x0b; x0c; x0d; x0a; x0b; x0c; x0d;
                       x0a; x0b; x0c; x0d; x07; x07; x07; x07;
                       x07; x07; x07; x07; x00; x00; x00; x00]).
Proof.
  apply (proj1 (proj2 from_byte_array_runs)
           [x03; x0e; x0a; x0b; x0c; x0d; x09; x07; x04] 3
           [x0e; x0a; x0b; x0c; x0d; x09; x07; x04]
           [[[x0a; x0b; x0c; x0d]; [x0a; x0b; x0c; x0d];
             [x0a; x0b; x0c; x0d]];
            [[x07; x07; x07; x07]; [x07; x07; x07; x07]];
            [[x00; x00; x00; x00]]]).
  - reflexivity.
  - apply (RunLength.runs_run _ 14 [x0a; x0b; x0c; x0d] [x09; x07; x04]);
      [reflexivity | apply (RunLength.body_word 14); reflexivity |].
    apply (RunLength.runs_run _ 9 [x07] [x04]);
      [reflexivity | apply (RunLength.body_byte 9); reflexivity |].
    apply (RunLength.runs_run _ 4 [] []);
      [reflexivity | apply (RunLength.body_zero 4); reflexivity |].
    apply RunLength.runs_end.
Defined.

(** ** The loop of [to_array] *)

Section ToArrayLoop.

Variables (width : Z) (skip : nat).

(** One turn of the [while 1] loop on a yielded colour. *)
Lemma while_1_yield color pixels x rgba :
  Form.while_1 width skip (Ok color :: pixels) x rgba
  = if width <=? x + 1 then
      rest ← Form.skip_pixels skip pixels;
      Form.while_1 width skip rest 0 (rgba ++ color)
    else Form.while_1 width skip pixels (x + 1) (rgba ++ color).
Proof.
  cbn [Form.while_1]. destruct (width <=? x + 1); [|reflexivity].
  match goal with
  | |- ?for_skip skip pixels = _ =>
      enough (G : forall i ps,
                 for_skip i ps
                 = rest ← Form.skip_pixels i ps;
                   Form.while_1 width skip rest 0 (rgba ++ color))
        by apply G
  end.
  induction i as [| i IH]; intros ps.
  - destruct ps; reflexivity.
  - destruct ps as [| [c | e] ps]; try reflexivity.
    cbn [Form.skip_pixels]. apply IH.
Qed.

Lemma skip_pixels_app {A} (gone rest : list A) :
  length gone = skip ->
  Form.skip_pixels skip (map Ok gone ++ map Ok rest) = Ok (map Ok rest).
Proof.
  intros <-. induction gone as [| c gone IH]; [reflexivity|].
  cbn. apply IH.
Qed.

End ToArrayLoop.

(** ** Depth 32: from an RGBA array and back *)

Lemma corrected_pixel_to_B (r g b a : byte) :
  mapM to_B
    [ord r; ord g; ord b;
     if (ord a =? 0) && ((0 <? ord r) || (0 <? ord g) || (0 <? ord b))
     then 255 else ord a]
  = Ok (corrected_pixel r g b a).
Proof.
  unfold corrected_pixel.
  pose proof (ord_range r). pose proof (ord_range g).
  pose proof (ord_range b).
  destruct ((ord a =? 0) && ((0 <? ord r) || (0 <? ord g) || (0 <? ord b)))
    eqn:E.
  - rewrite bool_decide_eq_true_2.
    + cbn. rewrite !to_B_ord. reflexivity.
    + apply andb_true_iff in E as [E1 E2]. apply Z.eqb_eq in E1.
      split; [exact E1|].
      apply orb_true_iff in E2 as [E2 | E2];
        [apply orb_true_iff in E2 as [E2 | E2]|];
        apply Z.ltb_lt in E2; lia.
  - rewrite bool_decide_eq_false_2.
    + cbn. rewrite !to_B_ord. reflexivity.
    + intros [Ha Hc]. apply andb_false_iff in E as [E | E].
      * apply Z.eqb_neq in E. lia.
      * apply orb_false_iff in E as [E E3].
        apply orb_false_iff in E as [E1 E2].
        apply Z.ltb_ge in E1, E2, E3. lia.
Qed.

Lemma corrected_pixel_length r g b a :
  length (corrected_pixel r g b a) = 4%nat.
Proof. unfold corrected_pixel. now destruct (bool_decide _). Qed.

(** Induction over an array four bytes at a time. *)
Lemma rgba_ind (P : list byte -> Prop) :
  P [] ->
  (forall r g b a rest, P rest -> P (r :: g :: b :: a :: rest)) ->
  forall (n : nat) px, length px = (4 * n)%nat -> P px.
Proof.
  intros Hnil Hcons. induction n as [| n IH]; intros px Hlen.
  - destruct px; [exact Hnil | discriminate].
  - destruct px as [| r [| g [| b [| a rest]]]]; try (cbn in Hlen; lia).
    apply Hcons, IH. cbn in Hlen. lia.
Qed.

Lemma corrected_length (n : nat) px :
  length px = (4 * n)%nat -> length (corrected px) = length px.
Proof.
  revert n px. apply rgba_ind; [reflexivity|].
  intros r g b a rest IH. cbn [corrected].
  rewrite length_app, corrected_pixel_length, IH. reflexivity.
Qed.

Lemma corrected_pixel_again r g b a (rest : list byte) :
  corrected (corrected_pixel r g b a ++ rest)
  = corrected_pixel r g b a ++ corrected rest.
Proof.
  unfold corrected_pixel at 1 2.
  destruct (bool_decide _) eqn:E; cbn [app corrected]; unfold corrected_pixel.
  - rewrite bool_decide_eq_false_2; [reflexivity|].
    intros [Ha _]. vm_compute in Ha. discriminate.
  - rewrite E. reflexivity.
Qed.

Lemma corrected_idempotent (n : nat) px :
  length px = (4 * n)%nat -> corrected (corrected px) = corrected px.
Proof.
  revert n px. apply rgba_ind; [reflexivity|].
  intros r g b a rest IH. cbn [corrected].
  now rewrite corrected_pixel_again, IH.
Qed.

(** What [from_array] stores decodes to the corrected array. *)
Lemma from_array_pixels (n : nat) px :
  length px = (4 * n)%nat ->
  exists raw,
    Form.raw_of_rgba px = Ok raw
    /\ forall width x rgba,
        Form.while_1 width 0 (Form._to_pixels_32 raw) x rgba
        = Ok (rgba ++ corrected px).
Proof.
  revert n px. apply rgba_ind.
  - exists []. split; [reflexivity|]. intros. cbn. now rewrite app_nil_r.
  - intros r g b a rest (raw & Eraw & Hloop).
    exists (a :: r :: g :: b :: raw). split.
    + cbn [Form.raw_of_rgba]. rewrite Eraw. reflexivity.
    + intros width x rgba. cbn [Form._to_pixels_32].
      rewrite corrected_pixel_to_B, while_1_yield. cbn [Form.skip_pixels].
      cbn [corrected]. rewrite app_assoc.
      destruct (width <=? x + 1); apply Hloop.
Qed.

Lemma corrected_pixelwise (n : nat) px :
  length px = (4 * n)%nat ->
  forall (k : nat) r g b a,
    slice px (4 * k) (4 * k + 4) = [r; g; b; a] ->
    slice (corrected px) (4 * k) (4 * k + 4) = corrected_pixel r g b a.
Proof.
  revert n px.
  apply (rgba_ind (fun px => forall (k : nat) r g b a,
                     slice px (4 * k) (4 * k + 4) = [r; g; b; a] ->
                     slice (corrected px) (4 * k) (4 * k + 4)
                     = corrected_pixel r g b a)); unfold slice.
  - intros k r g b a. rewrite drop_nil.
    destruct (4 * k + 4 - 4 * k)%nat; discriminate.
  - intros r0 g0 b0 a0 rest IH k r g b a.
    replace (4 * k + 4 - 4 * k)%nat with 4%nat in * by lia.
    destruct k as [| k].
    + change (4 * 0)%nat with 0%nat. rewrite !drop_0.
      intros Hpx. cbn in Hpx. injection Hpx as -> -> -> ->.
      cbn [corrected].
      rewrite <- (corrected_pixel_length r g b a) at 1.
      now rewrite take_app_length.
    + replace (4 * S k)%nat with (4 + 4 * k)%nat by lia.
      cbn [corrected]. intros Hpx.
      change (drop (4 + 4 * k) (r0 :: g0 :: b0 :: a0 :: rest))
        with (drop (4 * k) rest) in Hpx.
      rewrite <- drop_drop.
      rewrite (drop_app_length' _ _ 4)
        by (symmetry; apply corrected_pixel_length).
      specialize (IH k r g b a).
      replace (4 * k + 4 - 4 * k)%nat with 4%nat in IH by lia.
      apply IH. exact Hpx.
Qed.

(** C9.  For a width [w], a height [h] and an RGBA byte array [px] of
    length [4*w*h], [from_array] followed by [to_array] gives back [w],
    [h] and [px] with alpha 255 in place of every alpha that was 0 while a
    colour channel of its pixel was nonzero, all other bytes and the
    order of the pixels unchanged; importing that array again gives a
    Form that decodes to the same array. *)
Theorem from_array_round_trip (w h : Z) (px : list byte) :
  Z.of_nat (length px) = 4 * w * h ->
  exists form form',
    Form.from_array w h px = Ok form
    /\ Form.to_array form = Ok (w, h, corrected px)
    /\ Form.from_array w h (corrected px) = Ok form'
    /\ Form.to_array form' = Ok (w, h, corrected px)
    /\ Form.depth form' = 32
    /\ length (corrected px) = length px
    /\ (forall (k : nat) r g b a,
           slice px (4 * k) (4 * k + 4) = [r; g; b; a] ->
           slice (corrected px) (4 * k) (4 * k + 4)
           = [r; g; b;
              if bool_decide
                   (ord a = 0 /\ (ord r <> 0 \/ ord g <> 0 \/ ord b <> 0))
              then xff else a]).
Proof.
  intros Hlen.
  assert (Hn : length px = (4 * Z.to_nat (w * h))%nat) by lia.
  pose proof (corrected_length _ _ Hn) as Hcl.
  assert (Hn' : length (corrected px) = (4 * Z.to_nat (w * h))%nat) by lia.
  destruct (from_array_pixels _ _ Hn) as (raw & Eraw & Hloop).
  destruct (from_array_pixels _ _ Hn') as (raw' & Eraw' & Hloop').
  rewrite (corrected_idempotent _ _ Hn) in Hloop'.
  exists (Form.Form w h 32 None (Bitmap.Bitmap raw) None),
         (Form.Form w h 32 None (Bitmap.Bitmap raw') None).
  split; [unfold Form.from_array; now rewrite Eraw|].
  split; [unfold Form.to_array, Form._to_pixels; cbn; now rewrite Hloop|].
  split; [unfold Form.from_array; now rewrite Eraw'|].
  split; [unfold Form.to_array, Form._to_pixels; cbn; now rewrite Hloop'|].
  split; [reflexivity|]. split; [exact Hcl|].
  intros k r g b a Hpx.
  rewrite (corrected_pixelwise _ _ Hn k r g b a Hpx).
  unfold corrected_pixel. now destruct (bool_decide _).
Qed.

Lemma from_array_round_trip_witness :
  exists form,
    Form.from_array 2 1 [x0a; x14; x1e; x00; x00; x00; x00; x00] = Ok form
    /\ Form.to_array form
       = Ok (2, 1, [x0a; x14; x1e; xff; x00; x00; x00; x00]).
Proof.
  destruct (from_array_round_trip 2 1
              [x0a; x14; x1e; x00; x00; x00; x00; x00])
    as (form & _ & E1 & E2 & _); [reflexivity|].
  exists form. split; [exact E1 | exact E2].
Defined.

(** ** Depth 8 and below: scanlines and their padding *)

Section Scanlines.

Variables (width : Z) (skip : nat).
Hypothesis width_pos : 0 < width.

(** The visible part of a row, then its padding. *)
Lemma while_1_row (vis pad : list (list byte)) pixels :
  length pad = skip ->
  vis <> [] ->
  forall x rgba,
    x + Z.of_nat (length vis) = width ->
    Form.while_1 width skip
      (map Ok vis ++ map Ok pad ++ map Ok pixels) x rgba
    = Form.while_1 width skip (map Ok pixels) 0 (rgba ++ concat vis).
Proof.
  intros Hpad. induction vis as [| c vis IH]; [congruence|].
  intros _ x rgba Hx. cbn [map app]. rewrite while_1_yield.
  destruct vis as [| c' vis].
  - cbn in Hx. replace (width <=? x + 1) with true
      by (symmetry; apply Z.leb_le; lia).
    cbn [map app]. rewrite skip_pixels_app by exact Hpad.
    cbn. now rewrite app_nil_r.
  - cbn [length] in Hx.
    replace (width <=? x + 1) with false
      by (symmetry; apply Z.leb_gt; lia).
    rewrite IH; [| discriminate | cbn [length]; lia].
    cbn [concat]. now rewrite <- app_assoc.
Qed.

(** Whole rows: each contributes its visible part. *)
Lemma while_1_rows (rows : list (list (list byte))) :
  Forall (fun row => Z.of_nat (length row) = width + Z.of_nat skip) rows ->
  forall rgba,
    Form.while_1 width skip (map Ok (concat rows)) 0 rgba
    = Ok (rgba
          ++ concat (map (fun row => concat (take (Z.to_nat width) row))
                       rows)).
Proof.
  induction 1 as [| row rows Hrow _ IH]; intros rgba.
  - cbn. now rewrite app_nil_r.
  - cbn [concat map].
    rewrite <- (take_drop (Z.to_nat width) row) at 1.
    rewrite <- app_assoc, !map_app.
    rewrite while_1_row.
    + rewrite IH. cbn [map concat]. now rewrite <- app_assoc.
    + rewrite length_drop. lia.
    + intros E. apply (f_equal length) in E.
      rewrite length_take in E. cbn in E. lia.
    + rewrite length_take. lia.
Qed.

End Scanlines.

Lemma getitem_valid (palette : list (list byte)) (indices : list Z) :
  Forall (fun i => is_Some (palette !! Z.to_nat i)) indices ->
  map (Form.getitem palette) indices
  = map Ok (map (color_at palette) indices).
Proof.
  induction 1 as [| i indices [c Hc] _ IH]; [reflexivity|].
  cbn [map]. rewrite IH. unfold Form.getitem, color_at. now rewrite Hc.
Qed.

(** The bits of a Form always hold the indices [_to_pixels] asks for. *)
Lemma BitArray_total (n count : nat) (bits : list bool) :
  (count * n <= length bits)%nat ->
  exists xs, BitArray count n bits = Some xs /\ length xs = count.
Proof.
  revert bits. induction count as [| count IH]; intros bits Hlen.
  - exists []. split; reflexivity.
  - cbn [BitArray]. unfold Bits.
    replace (n <=? length bits)%nat with true
      by (symmetry; apply Nat.leb_le; lia).
    destruct (IH (drop n bits)) as (xs & E & Hxs).
    { rewrite length_drop. lia. }
    rewrite E. eexists; split; [reflexivity|]. cbn. now rewrite Hxs.
Qed.

Lemma bits_of_bytes_length (bs : list byte) :
  length (bits_of_bytes bs) = (8 * length bs)%nat.
Proof.
  unfold bits_of_bytes. induction bs as [| b bs IH]; [reflexivity|].
  cbn [map concat]. rewrite length_app, IH. cbn. lia.
Qed.

Lemma pixels_construct_BitArray (depth length : Z) (bytes : list byte) xs :
  Form.pixels_construct depth length bytes = Ok xs ->
  BitArray (Z.to_nat length) (Z.to_nat depth) (bits_of_bytes bytes) = Some xs.
Proof.
  unfold Form.pixels_construct.
  destruct (negb _); [discriminate|].
  destruct (_ && _); [discriminate|].
  destruct (BitArray _ _ _) as [ys |]; [|discriminate].
  now intros [= <-].
Qed.

Lemma indices_of_parse (self : Form.t) (indices : list Z) :
  indices_of self = Some indices ->
  Form.pixels_construct (Form.depth self)
    (Z.of_nat (length (Bitmap.value (Form.bits self))) * 8 / Form.depth self)
    (Bitmap.value (Form.bits self))
  = Ok indices.
Proof.
  unfold indices_of. destruct (Form.depth self =? 0); [discriminate|].
  destruct (Form.pixels_construct _ _ _) as [xs | e]; [|discriminate].
  now intros [= <-].
Qed.

(** A layout of whole bytes is parsed. *)
Lemma pixels_construct_whole_bytes (depth : Z) (bytes : list byte) :
  1 <= depth <= 8 ->
  let length := Z.of_nat (List.length bytes) * 8 / depth in
  (depth * length) mod 8 = 0 ->
  exists xs,
    Form.pixels_construct depth length bytes = Ok xs
    /\ Z.of_nat (List.length xs) = length.
Proof.
  intros Hd len Hsize. unfold Form.pixels_construct.
  fold len. rewrite Hsize. cbn [Z.eqb negb].
  assert (Hq : 0 <= len) by (apply Z.div_pos; lia).
  pose proof (Z.mul_div_le (Z.of_nat (List.length bytes) * 8) depth
                ltac:(lia)) as Hle.
  fold len in Hle.
  replace (Z.of_nat (List.length bytes) <? depth * len / 8) with false.
  2:{ symmetry. apply Z.ltb_ge.
      apply Z.div_le_upper_bound; lia. }
  rewrite andb_false_r.
  destruct (BitArray_total (Z.to_nat depth) (Z.to_nat len)
              (bits_of_bytes bytes)) as (xs & E & Hxs).
  - rewrite bits_of_bytes_length. nia.
  - exists xs. rewrite E. split; [reflexivity|]. rewrite Hxs. lia.
Qed.

(** The depths that divide 8 always give whole bytes. *)
Lemma indices_of_total (self : Form.t) :
  Form.depth self = 1 \/ Form.depth self = 2
  \/ Form.depth self = 4 \/ Form.depth self = 8 ->
  exists indices,
    indices_of self = Some indices
    /\ Z.of_nat (length indices)
       = Z.of_nat (length (Bitmap.value (Form.bits self))) * 8
         / Form.depth self.
Proof.
  intros Hd. unfold indices_of.
  set (len := Z.of_nat (length (Bitmap.value (Form.bits self)))).
  assert (Hsize : (Form.depth self * (len * 8 / Form.depth self)) mod 8 = 0).
  { destruct Hd as [-> | [-> | [-> | ->]]].
    - rewrite Z.div_1_r, Z.mul_1_l. apply Z_mod_mult.
    - replace (len * 8) with (len * 4 * 2) by lia.
      rewrite Z.div_mul by lia.
      replace (2 * (len * 4)) with (len * 8) by lia. apply Z_mod_mult.
    - replace (len * 8) with (len * 2 * 4) by lia.
      rewrite Z.div_mul by lia.
      replace (4 * (len * 2)) with (len * 8) by lia. apply Z_mod_mult.
    - rewrite Z.div_mul by lia. rewrite Z.mul_comm. apply Z_mod_mult. }
  assert (Hr : 1 <= Form.depth self <= 8) by lia.
  destruct (pixels_construct_whole_bytes (Form.depth self)
              (Bitmap.value (Form.bits self)) Hr Hsize) as (xs & E & Hxs).
  replace (Form.depth self =? 0) with false
    by (symmetry; apply Z.eqb_neq; lia).
  fold len in E. rewrite E. exists xs. split; [reflexivity | exact Hxs].
Qed.

Lemma row_padding_range (depth width : Z) :
  1 <= depth <= 8 ->
  0 <= row_padding depth width < pixels_per_word depth
  /\ 4 <= pixels_per_word depth <= 32
  /\ (width + row_padding depth width) mod pixels_per_word depth = 0.
Proof.
  intros Hd. unfold row_padding, pixels_per_word.
  assert (Hp : 4 <= 32 / depth <= 32).
  { split.
    - apply Z.div_le_lower_bound; lia.
    - apply Z.div_le_upper_bound; lia. }
  set (p := 32 / depth) in *.
  split; [apply Z.mod_pos_bound; lia|]. split; [exact Hp|].
  rewrite Zplus_mod_idemp_r.
  replace (width + (p - width mod p)) with (p + (width - width mod p))
    by lia.
  rewrite (Z.div_mod width p) at 1 by lia.
  replace (p + (p * (width / p) + width mod p - width mod p))
    with ((1 + width / p) * p) by lia.
  apply Z_mod_mult.
Qed.

(** What [to_array] returns for a Form of depth 1 to 8 whose decoded
    indices are whole rows within the palette. *)
Lemma to_array_whole_rows (self : Form.t) palette (rows : list (list Z)) :
  1 <= Form.depth self <= 8 ->
  0 < Form.width self ->
  palette_of self = Ok palette ->
  indices_of self = Some (concat rows) ->
  Forall (fun row =>
            Z.of_nat (length row)
            = Form.width self
              + row_padding (Form.depth self) (Form.width self)) rows ->
  Forall (Forall (fun i => is_Some (palette !! Z.to_nat i))) rows ->
  Form.to_array self
  = Ok (Form.width self, Form.height self,
        concat (map (row_bytes palette (Form.width self)) rows)).
Proof.
  intros Hd Hw Hpal Hidx Hrows Hvalid.
  assert (E8 : (Form.depth self <=? 8) = true) by (apply Z.leb_le; lia).
  assert (E0 : (Form.depth self =? 0) = false) by (apply Z.eqb_neq; lia).
  assert (E32 : (Form.depth self =? 32) = false) by (apply Z.eqb_neq; lia).
  assert (E16 : (Form.depth self =? 16) = false) by (apply Z.eqb_neq; lia).
  destruct (row_padding_range _ (Form.width self) Hd) as [Hskip _].
  unfold Form.to_array, Form._to_pixels, Form._to_pixels_indexed.
  rewrite E8, E0, E32, E16.
  unfold palette_of in Hpal. rewrite Hpal.
  rewrite (indices_of_parse _ _ Hidx).
  fold (pixels_per_word (Form.depth self)).
  fold (row_padding (Form.depth self) (Form.width self)).
  set (skip := row_padding (Form.depth self) (Form.width self)) in *.
  cbn [mbind result_bind Py.bind].
  rewrite getitem_valid by (now apply Forall_concat).
  replace (map (color_at palette) (concat rows))
    with (concat (map (map (color_at palette)) rows))
    by (symmetry; apply concat_map).
  rewrite (while_1_rows _ _ Hw).
  - cbn. do 3 f_equal. rewrite map_map. apply map_ext. intros row.
    unfold row_bytes. now rewrite firstn_map.
  - apply Forall_map. eapply Forall_impl; [exact Hrows|].
    intros row Hrow. cbn beta in Hrow. cbn. rewrite length_map. lia.
Qed.

(** C5.  The code at the documented example, a Form of depth 1, width 3
    and height 1 whose bits are the single byte 0b10000000 and whose
    palette is the default one.  The byte decodes to the eight indices
    1, 0, 0, 0, 0, 0, 0, 0 and the row has 29 indices of padding; after
    the three pixels the loop that skips the padding calls [next()]
    outside the [try], runs out of indices and [to_array] raises
    [StopIteration].  With the whole word 0b10000000, 0, 0, 0 as bits it
    returns, but eight bytes and not three pixels, the entry of the
    default table at index 1 being empty. *)
Theorem to_array_single_byte_raises :
  let self := Form.Form 3 1 1 None (Bitmap.Bitmap [x80]) None in
  indices_of self = Some [1; 0; 0; 0; 0; 0; 0; 0]
  /\ row_padding (Form.depth self) (Form.width self) = 29
  /\ Form.to_array self = Raise StopIteration
  /\ (forall out, Form.to_array self <> Ok out)
  /\ Form.to_array
       (Form.Form 3 1 1 None (Bitmap.Bitmap [x80; x00; x00; x00]) None)
     = Ok (3, 1, [xff; xff; xff; x00; xff; xff; xff; x00])
  /\ squeak_colors !! 1%nat = Some []
  /\ squeak_colors !! 0%nat = Some [xff; xff; xff; x00].
Proof.
  repeat split; try (vm_compute; reflexivity).
  intros out. vm_compute. discriminate.
Qed.

(** A depth that does not divide 8 needs bits that hold a whole number
    of bytes of indices: four bytes at depth 3 hold ten indices, thirty
    bits, and the layout refuses them. *)
Lemma to_array_depth_3_uneven :
  Form.to_array
    (Form.Form 10 1 3 None (Bitmap.Bitmap [x00; x00; x00; x00]) None)
  = Raise ConstructError
  /\ indices_of
       (Form.Form 10 1 3 None (Bitmap.Bitmap [x00; x00; x00; x00]) None)
     = None.
Proof. split; vm_compute; reflexivity. Qed.

(** X27.  A row is rounded to whole 32-bit words: with
    [pixels_per_word = 32 / depth], each scanline ends in
    [(pixels_per_word - width mod pixels_per_word) mod pixels_per_word]
    decoded indices of padding.  For a Form of depth 1 to 8 and positive
    width whose bits decode to whole rows (the [width] pixels and the
    padding) of indices the palette has, [to_array] returns, row after
    row, the palette entries of the first [width] indices of the row and
    nothing for the padding.  For the depths 1, 2, 4 and 8 the bits
    always decode, to [8 * len / depth] indices.  With depth 1, width 3,
    a palette of two colours and the one word 0b10000000 0 0 0 as bits,
    the result is the colour at index 1 followed twice by the colour at
    index 0, the other 29 indices being padding. *)
Theorem to_array_row_padding :
  (forall (self : Form.t) palette (rows : list (list Z)),
      1 <= Form.depth self <= 8 ->
      0 < Form.width self ->
      palette_of self = Ok palette ->
      indices_of self = Some (concat rows) ->
      Forall (fun row =>
                Z.of_nat (length row)
                = Form.width self
                  + row_padding (Form.depth self) (Form.width self)) rows ->
      Forall (Forall (fun i => is_Some (palette !! Z.to_nat i))) rows ->
      Form.to_array self
      = Ok (Form.width self, Form.height self,
            concat (map (row_bytes palette (Form.width self)) rows)))
  /\ (forall self : Form.t,
         Form.depth self = 1 \/ Form.depth self = 2
         \/ Form.depth self = 4 \/ Form.depth self = 8 ->
         exists indices,
           indices_of self = Some indices
           /\ Z.of_nat (length indices)
              = Z.of_nat (length (Bitmap.value (Form.bits self))) * 8
                / Form.depth self)
  /\ (forall depth width,
         1 <= depth <= 8 ->
         0 <= row_padding depth width < pixels_per_word depth
         /\ 4 <= pixels_per_word depth <= 32
         /\ (width + row_padding depth width) mod pixels_per_word depth = 0)
  /\ row_padding 1 3 = 29
  /\ Form.to_array
       (Form.Form 3 1 1 None (Bitmap.Bitmap [x80; x00; x00; x00])
          (Some [AColor (Color.Color 0 0 0);
                 AColor (Color.Color 1023 1023 1023)]))
     = Ok (3, 1, [xff; xff; xff; xff; x00; x00; x00; xff;
                  x00; x00; x00; xff]).
Proof.
  split; [exact to_array_whole_rows|].
  split; [exact indices_of_total|].
  split; [exact row_padding_range|].
  split; [reflexivity|].
  vm_compute. reflexivity.
Qed.

Lemma to_array_row_padding_witness :
  Form.to_array
    (Form.Form 3 2 4 None
       (Bitmap.Bitmap [x10; x10; x00; x00; x01; x10; x00; x00])
       (Some [AColor (Color.Color 0 0 0);
              ATranslucentColor
                (TranslucentColor.TranslucentColor 1023 512 0 400)]))
  = Ok (3, 2, [xff; x80; x00; x64; x00; x00; x00; xff; xff; x80; x00; x64;
               x00; x00; x00; xff; xff; x80; x00; x64; xff; x80; x00; x64]).
Proof.
  apply (proj1 to_array_row_padding
           (Form.Form 3 2 4 None
              (Bitmap.Bitmap [x10; x10; x00; x00; x01; x10; x00; x00])
              (Some [AColor (Color.Color 0 0 0);
                     ATranslucentColor
                       (TranslucentColor.TranslucentColor 1023 512 0 400)]))
           [[x00; x00; x00; xff]; [xff; x80; x00; x64]]
           [[1; 0; 1; 0; 0; 0; 0; 0]; [0; 1; 1; 0; 0; 0; 0; 0]]).
  - vm_compute. split; discriminate.
  - reflexivity.
  - reflexivity.
  - reflexivity.
  - apply (bool_decide_unpack _). vm_compute. exact I.
  - apply (bool_decide_unpack _). vm_compute. exact I.
Defined.

(** ** Containers *)

Lemma Array_length {A} (subcon : parser A) (count : nat) :
  forall bs items rest,
    Array count subcon bs = Some (items, rest) -> length items = count.
Proof.
  induction count as [| count IH]; intros bs items rest; cbn [Array].
  - now intros [= <- _].
  - destruct (subcon bs) as [[x bs'] |]; [|discriminate].
    destruct (Array count subcon bs') as [[xs bs''] |] eqn:E; [|discriminate].
    intros [= <- _]. cbn. f_equal. eapply IH, E.
Qed.

Lemma UBInt32_range (bs rest : list byte) (n : Z) :
  UBInt32 bs = Some (n, rest) -> 0 <= n < 2 ^ 32.
Proof.
  unfold UBInt32, Bytes.
  destruct bs as [| b0 [| b1 [| b2 [| b3 bs]]]]; try discriminate.
  cbn -[be_value Z.pow]. intros [= <- _]. rewrite be_value_4.
  pose proof (ord_range b0). pose proof (ord_range b1).
  pose proof (ord_range b2). pose proof (ord_range b3). lia.
Qed.

Lemma ord_byte_of (n : Z) : ord (Build.byte_of n) = n mod 256.
Proof.
  unfold Build.byte_of, ord.
  pose proof (Z.mod_pos_bound n 256 ltac:(lia)) as Hm.
  pose proof (Byte.to_of_N_option_map (Z.to_N (n mod 256))) as Ho.
  replace (N.leb (Z.to_N (n mod 256)) 255) with true in Ho
    by (symmetry; apply N.leb_le; lia).
  destruct (Byte.of_N (Z.to_N (n mod 256))) as [b |]; [|discriminate].
  cbn in Ho. injection Ho as Ho. simpl. rewrite Ho. lia.
Qed.

(** The length a layout writes is the length it reads back. *)
Lemma UBInt32_build_parse (n : Z) (hdr rest : list byte) :
  Build.UBInt32 n = Some hdr -> UBInt32 (hdr ++ rest) = Some (n, rest).
Proof.
  unfold Build.UBInt32.
  destruct ((0 <=? n) && (n <? 2 ^ 32)) eqn:E; [|discriminate].
  apply andb_true_iff in E as [E1 E2].
  apply Z.leb_le in E1. apply Z.ltb_lt in E2.
  intros [= <-]. unfold UBInt32, Bytes. cbn -[be_value Z.pow Z.div].
  rewrite be_value_4, !ord_byte_of. do 2 f_equal.
  change (2 ^ 24) with (256 * 256 * 256). change (2 ^ 16) with (256 * 256).
  change (2 ^ 8) with 256. change (2 ^ 32) with (256 * 256 * 256 * 256) in E2.
  pose proof (Z.div_mod n 256 ltac:(lia)).
  pose proof (Z.div_mod (n / 256) 256 ltac:(lia)).
  pose proof (Z.div_mod (n / 256 / 256) 256 ltac:(lia)).
  rewrite <- !Z.div_div by lia.
  assert (n / 256 / 256 / 256 < 256).
  { repeat (apply Z.div_lt_upper_bound; [lia|]). lia. }
  assert (0 <= n / 256 / 256 / 256) by (repeat apply Z.div_pos; lia).
  rewrite (Z.mod_small (n / 256 / 256 / 256)) by lia. lia.
Qed.

Section DictProperties.

#[local] Set Warnings "-clear-no-such-hyp".

Context {Field : Type} {Field_eq : EqDecision Field}
        {Field_hash : Countable Field}.

Implicit Types (pairs : list (Field * Field)) (d : gmap Field Field).

Lemma enter_all_dom pairs d :
  dom (foldl (fun d item => <[item.1 := item.2]> d) d pairs)
  = dom d ∪ list_to_set pairs.*1.
Proof.
  revert d. induction pairs as [| [k v] pairs IH]; intros d; cbn [foldl].
  - cbn. set_solver.
  - rewrite IH. cbn. rewrite dom_insert_L. set_solver.
Qed.

Lemma enter_all_other pairs d key :
  key ∉ pairs.*1 ->
  foldl (fun d item => <[item.1 := item.2]> d) d pairs !! key = d !! key.
Proof.
  revert d. induction pairs as [| [k v] pairs IH]; intros d Hk;
    cbn [foldl].
  - reflexivity.
  - cbn in Hk. apply not_elem_of_cons in Hk as [Hne Hk].
    rewrite IH by exact Hk. cbn. now rewrite lookup_insert_ne.
Qed.

Lemma dict_dom pairs : dom (dict pairs) = list_to_set pairs.*1.
Proof. unfold dict. rewrite enter_all_dom. set_solver. Qed.

(** One pair per distinct key. *)
Lemma dict_size pairs :
  size (dict pairs) = size (list_to_set pairs.*1 : gset Field).
Proof. now rewrite <- dict_dom, size_dom. Qed.

(** The last pair with a key gives its value. *)
Lemma dict_last pairs before after key value :
  pairs = before ++ (key, value) :: after ->
  key ∉ after.*1 ->
  dict pairs !! key = Some value.
Proof.
  intros -> Hk. unfold dict. rewrite foldl_app. cbn [foldl].
  rewrite enter_all_other by exact Hk. cbn. apply lookup_insert_eq.
Qed.

Lemma dict_reverse pairs : dict pairs = list_to_map (reverse pairs).
Proof.
  unfold dict.
  induction pairs as [| [k v] pairs IH] using rev_ind; [reflexivity|].
  rewrite foldl_snoc, reverse_snoc, IH. reflexivity.
Qed.

Lemma dict_map_to_list d : dict (map_to_list d) = d.
Proof.
  rewrite dict_reverse.
  rewrite <- (list_to_map_to_list d) at 2.
  symmetry. apply list_to_map_proper.
  - apply NoDup_fst_map_to_list.
  - symmetry. apply reverse_Permutation.
Qed.

Lemma key_set_size (keys : list Field) :
  (size (list_to_set keys : gset Field) <= length keys)%nat
  /\ (size (list_to_set keys : gset Field) = length keys <-> NoDup keys).
Proof.
  induction keys as [| k keys [IHle IHeq]].
  - cbn [list_to_set length]. rewrite size_empty.
    split; [lia|]. split; [constructor | reflexivity].
  - rewrite list_to_set_cons. cbn [length].
    destruct (decide (k ∈ keys)) as [Hin | Hin].
    + replace ({[k]} ∪ list_to_set keys : gset Field)
        with (list_to_set keys : gset Field) by set_solver.
      split; [lia|]. split; [lia|].
      intros Hnd. apply NoDup_cons in Hnd as [Hnd _]. contradiction.
    + rewrite size_union by set_solver. rewrite size_singleton.
      split; [lia|]. rewrite NoDup_cons. split.
      * intros E. split; [exact Hin|]. apply IHeq. lia.
      * intros [_ Hnd]. apply IHeq in Hnd. lia.
Qed.

End DictProperties.

Section ContainerProperties.

Context {Field : Type} {Field_eq : EqDecision Field}
        {Field_hash : Countable Field}.
Variable parse_Field : parser Field.
Variable build_Field : Field -> option (list byte).

Lemma Collection_decode_length bs L body :
  UBInt32 bs = Some (L, body) ->
  Collection_decode parse_Field bs
  = match Array (Z.to_nat L) parse_Field body with
    | Some (items, rest) => Ok (items, rest)
    | None => Raise ConstructError
    end.
Proof.
  intros HL. pose proof (UBInt32_range _ _ _ HL) as Hrange.
  unfold Collection_decode, Collection_parse. rewrite HL. cbn.
  destruct (Array (Z.to_nat L) parse_Field body) as [[items rest] |] eqn:E;
    [|reflexivity].
  cbn. unfold FixedObjectWithRepeater_from_value. cbn.
  rewrite (Array_length _ _ _ _ _ E).
  replace (Z.of_nat (Z.to_nat L) =? L) with true
    by (symmetry; apply Z.eqb_eq; lia).
  reflexivity.
Qed.

Lemma Dictionary_decode_length bs L body :
  UBInt32 bs = Some (L, body) ->
  Dictionary_decode parse_Field bs
  = match Array (Z.to_nat L) (Dictionary_item parse_Field) body with
    | Some (pairs, rest) => Ok (dict pairs, rest)
    | None => Raise ConstructError
    end.
Proof.
  intros HL. unfold Dictionary_decode, Dictionary_parse. rewrite HL. cbn.
  now destruct (Array (Z.to_nat L) (Dictionary_item parse_Field) body)
    as [[pairs rest] |].
Qed.

(** What a layout with a length and items writes. *)
Lemma Array_build_records {A} (subcon : A -> option (list byte))
    (items : list A) recs :
  Z.of_nat (length items) < 2 ^ 32 ->
  mapM subcon items = Some recs ->
  exists hdr,
    Build.UBInt32 (Z.of_nat (length items)) = Some hdr
    /\ (forall rest,
           UBInt32 (hdr ++ rest) = Some (Z.of_nat (length items), rest))
    /\ (hdr' ← Build.UBInt32 (Z.of_nat (length items));
        body ← Build.Array (Z.of_nat (length items)) subcon items;
        Some (hdr' ++ body)) = Some (hdr ++ concat recs)
    /\ length recs = length items.
Proof.
  intros Hlen Hrecs.
  destruct (Build.UBInt32 (Z.of_nat (length items))) as [hdr |] eqn:E.
  - exists hdr. split; [reflexivity|].
    split; [intros rest; now apply UBInt32_build_parse|].
    split.
    + cbn. unfold Build.Array. rewrite Z.eqb_refl, Hrecs. reflexivity.
    + symmetry. eapply length_mapM, Hrecs.
  - exfalso. unfold Build.UBInt32 in E.
    replace (0 <=? Z.of_nat (length items)) with true in E
      by (symmetry; apply Z.leb_le; lia).
    replace (Z.of_nat (length items) <? 2 ^ 32) with true in E
      by (symmetry; apply Z.ltb_lt; lia).
    discriminate.
Qed.

End ContainerProperties.

Section ContainerClaims.

Context {Field : Type} {Field_eq : EqDecision Field}
        {Field_hash : Countable Field}.
Variable parse_Field : parser Field.
Variable build_Field : Field -> option (list byte).

(** C1, as the code has it.  [Dictionary.from_value] makes a [dict] of
    the decoded pairs: two pairs with equal keys become one pair, which
    holds the value of the later one.  The value has one pair per
    distinct key, each with the value of the last pair that has the
    key, so as many pairs as were decoded exactly when their keys are
    pairwise distinct; [to_value] writes one pair per key of the dict,
    and as length their number. *)
Theorem Dictionary_from_value_merges_equal_keys :
  (forall length (key value1 value2 : Field),
      Dictionary_from_value
        (Container.Container length [(key, value1); (key, value2)])
      = {[key := value2]}
      /\ size (Dictionary_from_value
                 (Container.Container length
                    [(key, value1); (key, value2)])) = 1%nat)
  /\ (forall obj : Container.t (Field * Field),
         let keys := (Container.items obj).*1 in
         size (Dictionary_from_value obj)
         = size (list_to_set keys : gset Field)
         /\ (size (Dictionary_from_value obj)
             <= length (Container.items obj))%nat
         /\ (size (Dictionary_from_value obj)
             = length (Container.items obj) <-> NoDup keys))
  /\ (forall (obj : Container.t (Field * Field)) before after key value,
         Container.items obj = before ++ (key, value) :: after ->
         key ∉ after.*1 ->
         Dictionary_from_value obj !! key = Some value)
  /\ (forall d : gmap Field Field,
         let obj := Dictionary_to_value d in
         Container.length obj = Z.of_nat (size d)
         /\ length (Container.items obj) = size d
         /\ NoDup (Container.items obj).*1
         /\ Dictionary_from_value obj = d).
Proof.
  split; [|split; [|split]].
  - intros len key value1 value2.
    assert (E : Dictionary_from_value
                  (Container.Container len [(key, value1); (key, value2)])
                = {[key := value2]}).
    { unfold Dictionary_from_value, dict. cbn.
      rewrite insert_insert_eq. apply insert_empty. }
    split; [exact E|]. rewrite E. apply map_size_singleton.
  - intros obj keys. unfold Dictionary_from_value. subst keys.
    rewrite dict_size.
    destruct (key_set_size (Container.items obj).*1) as [Hle Heq].
    rewrite length_fmap in Hle, Heq. auto.
  - intros obj before after key value Hitems Hkey.
    unfold Dictionary_from_value. eapply dict_last; eassumption.
  - intros d obj. subst obj. unfold Dictionary_to_value. cbn.
    rewrite length_map_to_list.
    repeat split; try reflexivity.
    + apply NoDup_fst_map_to_list.
    + unfold Dictionary_from_value. cbn. apply dict_map_to_list.
Qed.

(** C2, as the code has it.  A sequence with declared length [L]
    decodes to exactly [L] elements, or decoding raises when the stream
    does not hold [L] element records; encoding a decoded sequence
    writes [L] and then the [L] records.  A dictionary with declared
    length [L] decodes from exactly [L] pair records, or decoding
    raises; its value has one pair per distinct key, at most [L] and
    [L] exactly when the keys are pairwise distinct; encoding a decoded
    dictionary writes the number of its pairs and then that many
    records. *)
Theorem container_declared_length :
  (forall bs L body,
      UBInt32 bs = Some (L, body) ->
      match Array (Z.to_nat L) parse_Field body with
      | Some (items, rest) =>
          Collection_decode parse_Field bs = Ok (items, rest)
          /\ Z.of_nat (length items) = L
      | None => Collection_decode parse_Field bs = Raise ConstructError
      end)
  /\ (forall bs items rest recs,
         Collection_decode parse_Field bs = Ok (items, rest) ->
         mapM build_Field items = Some recs ->
         exists L body hdr,
           UBInt32 bs = Some (L, body)
           /\ Z.of_nat (length items) = L
           /\ length recs = length items
           /\ Collection_encode build_Field items
              = Some (hdr ++ concat recs)
           /\ forall rest', UBInt32 (hdr ++ rest') = Some (L, rest'))
  /\ (forall bs L body,
         UBInt32 bs = Some (L, body) ->
         match Array (Z.to_nat L) (Dictionary_item parse_Field) body with
         | Some (pairs, rest) =>
             Dictionary_decode parse_Field bs = Ok (dict pairs, rest)
             /\ Z.of_nat (length pairs) = L
             /\ size (dict pairs) = size (list_to_set pairs.*1 : gset Field)
             /\ Z.of_nat (size (dict pairs)) <= L
             /\ (Z.of_nat (size (dict pairs)) = L <-> NoDup pairs.*1)
         | None => Dictionary_decode parse_Field bs = Raise ConstructError
         end)
  /\ (forall bs d rest recs,
         Dictionary_decode parse_Field bs = Ok (d, rest) ->
         mapM (Dictionary_item_build build_Field) (map_to_list d)
         = Some recs ->
         exists hdr,
           length recs = size d
           /\ Dictionary_encode build_Field d = Some (hdr ++ concat recs)
           /\ forall rest',
               UBInt32 (hdr ++ rest') = Some (Z.of_nat (size d), rest'))
  /\ (forall bs,
         UBInt32 bs = None ->
         Collection_decode parse_Field bs = Raise ConstructError
         /\ Dictionary_decode parse_Field bs = Raise ConstructError).
Proof.
  split; [|split; [|split; [|split]]].
  - intros bs L body HL.
    rewrite (Collection_decode_length _ _ _ _ HL).
    pose proof (UBInt32_range _ _ _ HL) as Hrange.
    destruct (Array (Z.to_nat L) parse_Field body) as [[items rest] |] eqn:E;
      [|reflexivity].
    split; [reflexivity|]. rewrite (Array_length _ _ _ _ _ E). lia.
  - intros bs items rest recs Hdec Hrecs.
    destruct (UBInt32 bs) as [[L body] |] eqn:HL.
    + pose proof (UBInt32_range _ _ _ HL) as Hrange.
      rewrite (Collection_decode_length _ _ _ _ HL) in Hdec.
      destruct (Array (Z.to_nat L) parse_Field body) as [[items' rest'] |]
        eqn:E; [|discriminate].
      injection Hdec as -> ->.
      pose proof (Array_length _ _ _ _ _ E) as Hlen.
      destruct (Array_build_records build_Field items recs)
        as (hdr & _ & Hparse & Hbuild & Hn); [lia | exact Hrecs |].
      exists L, body, hdr.
      replace L with (Z.of_nat (length items)) by lia.
      repeat split; auto.
    + unfold Collection_decode, Collection_parse in Hdec.
      rewrite HL in Hdec. discriminate.
  - intros bs L body HL.
    rewrite (Dictionary_decode_length _ _ _ _ HL).
    pose proof (UBInt32_range _ _ _ HL) as Hrange.
    destruct (Array (Z.to_nat L) (Dictionary_item parse_Field) body)
      as [[pairs rest] |] eqn:E; [|reflexivity].
    pose proof (Array_length _ _ _ _ _ E) as Hlen.
    destruct (key_set_size pairs.*1) as [Hle Heq].
    rewrite length_fmap in Hle, Heq. rewrite dict_size.
    repeat split; try reflexivity; try lia.
    + intros E'. apply Heq. lia.
    + intros Hnd. apply Heq in Hnd. lia.
  - intros bs d rest recs Hdec Hrecs.
    destruct (UBInt32 bs) as [[L body] |] eqn:HL.
    + pose proof (UBInt32_range _ _ _ HL) as Hrange.
      rewrite (Dictionary_decode_length _ _ _ _ HL) in Hdec.
      destruct (Array (Z.to_nat L) (Dictionary_item parse_Field) body)
        as [[pairs rest'] |] eqn:E; [|discriminate].
      injection Hdec as <- ->.
      pose proof (Array_length _ _ _ _ _ E) as Hlen.
      destruct (key_set_size pairs.*1) as [Hle _].
      rewrite length_fmap, <- dict_size in Hle.
      destruct (Array_build_records (Dictionary_item_build build_Field)
                  (map_to_list (dict pairs)) recs)
        as (hdr & _ & Hparse & Hbuild & Hn);
        [rewrite length_map_to_list; lia | exact Hrecs |].
      rewrite length_map_to_list in Hparse, Hbuild, Hn.
      exists hdr. repeat split; auto.
      unfold Dictionary_encode, Dictionary_build, Dictionary_to_value.
      cbn [Container.length Container.items].
      rewrite length_map_to_list. exact Hbuild.
    + unfold Dictionary_decode, Dictionary_parse in Hdec.
      rewrite HL in Hdec. discriminate.
  - intros bs HL.
    unfold Collection_decode, Collection_parse, Dictionary_decode,
      Dictionary_parse.
    rewrite HL. split; reflexivity.
Qed.

End ContainerClaims.

(** *** The container properties on integer fields *)

Lemma Dictionary_from_value_merges_equal_keys_witness :
  Dictionary_from_value
    (Container.Container 3 [(1, 10); (2, 20); (1, 30)]) !! 1
  = Some 30.
Proof.
  apply (proj1 (proj2 (proj2
           (@Dictionary_from_value_merges_equal_keys Z _ _)))
           (Container.Container 3 [(1, 10); (2, 20); (1, 30)])
           [(1, 10); (2, 20)] [] 1 30).
  - reflexivity.
  - apply (bool_decide_unpack _). vm_compute. exact I.
Defined.

(** Two pairs with the key 1: the decoded dictionary holds one pair. *)
Lemma Dictionary_two_equal_keys_one_pair :
  let obj : Container.t (Z * Z) :=
    Container.Container 2 [(1, 10); (1, 20)] in
  size (Dictionary_from_value obj) = 1%nat
  /\ size (Dictionary_from_value obj) <> 2%nat
  /\ Dictionary_from_value obj !! 1 = Some 20
  /\ map_to_list (Dictionary_from_value obj) = [(1, 20)].
Proof.
  cbn zeta. repeat split; try (vm_compute; reflexivity).
  vm_compute. discriminate.
Qed.

Lemma container_declared_length_witness :
  Collection_decode UBInt8 [x00; x00; x00; x02; x07; x09; x01]
  = Ok ([7; 9], [x01])
  /\ Z.of_nat (length [7; 9]) = 2.
Proof.
  exact (proj1 (container_declared_length
                  UBInt8 (fun n => Some [Build.byte_of n]))
           [x00; x00; x00; x02; x07; x09; x01] 2 [x07; x09; x01]
           eq_refl).
Defined.

(** A dictionary with declared length 3 and the keys 1, 2, 1: as parsed
    by the layout, and on the wire with one-byte integer fields.  The
    decoded value holds 2 pairs and is written back with length 2. *)
Lemma Dictionary_declared_three_holds_two :
  let obj : Container.t (Z * Z) :=
    Container.Container 3 [(1, 10); (2, 20); (1, 30)] in
  let wire := [x00; x00; x00; x03; x01; x0a; x02; x14; x01; x1e] in
  Dictionary_parse UBInt8 wire = Some (obj, [])
  /\ Dictionary_decode UBInt8 wire = Ok (Dictionary_from_value obj, [])
  /\ size (Dictionary_from_value obj) = 2%nat
  /\ size (Dictionary_from_value obj) <> 3%nat
  /\ Container.length (Dictionary_to_value (Dictionary_from_value obj)) = 2
  /\ take 4 <$> Dictionary_encode (fun n => Some [Build.byte_of n])
                  (Dictionary_from_value obj)
     = Some [x00; x00; x00; x02].
Proof.
  cbn zeta. repeat split; try (vm_compute; reflexivity).
  vm_compute. discriminate.
Qed.

(** * Further properties *)

(** ** Reading run-length data *)

Lemma int_fails_iff (bs : list byte) :
  Bitmap._int bs = None
  <-> match bs with
      | [] => True
      | b :: rest =>
          (224 <= ord b <= 254 /\ rest = [])
          \/ (ord b = 255 /\ (length rest < 4)%nat)
      end.
Proof.
  unfold Bitmap._int, UBInt32, Bytes, UBInt8.
  destruct bs as [| b rest]; [tauto|]. cbn -[Nat.leb].
  pose proof (ord_range b) as Hb.
  destruct (223 <? ord b) eqn:E1.
  - apply Z.ltb_lt in E1. destruct (ord b <=? 254) eqn:E2.
    + apply Z.leb_le in E2. destruct rest as [| c rest]; cbn.
      * split; [intros _; left; split; [lia | reflexivity] | reflexivity].
      * split; [discriminate|]. intros [[_ [=]] | [? _]]. lia.
    + apply Z.leb_gt in E2.
      destruct (4 <=? length rest)%nat eqn:E3; cbn.
      * apply Nat.leb_le in E3. split; [discriminate|].
        intros [[? _] | [_ ?]]; lia.
      * apply Nat.leb_gt in E3. split; [|reflexivity].
        intros _. right. split; lia.
  - apply Z.ltb_ge in E1. split; [discriminate|].
    intros [[? _] | [? _]]; lia.
Qed.

(** X1.  The variable-length integer is a 32-bit unsigned value read from
    the first one, two or five bytes; it cannot be read exactly from an
    empty input and from an input that ends inside those bytes. *)
Theorem int_reads_a_prefix (bs : list byte) :
  (forall V rest,
      Bitmap._int bs = Some (V, rest) ->
      0 <= V < 2 ^ 32
      /\ exists read,
          bs = read ++ rest
          /\ (length read = 1%nat \/ length read = 2%nat
              \/ length read = 5%nat))
  /\ (Bitmap._int bs = None
      <-> match bs with
          | [] => True
          | b :: rest =>
              (224 <= ord b <= 254 /\ rest = [])
              \/ (ord b = 255 /\ (length rest < 4)%nat)
          end).
Proof.
  split; [|apply int_fails_iff].
  intros V rest. unfold Bitmap._int, UBInt32, Bytes, UBInt8.
  destruct bs as [| b bs]; [discriminate|]. cbn -[Nat.leb Z.pow].
  pose proof (ord_range b) as Hb.
  destruct (223 <? ord b) eqn:E1.
  - apply Z.ltb_lt in E1. destruct (ord b <=? 254) eqn:E2.
    + apply Z.leb_le in E2. destruct bs as [| c bs]; cbn; [discriminate|].
      intros [= <- <-]. pose proof (ord_range c). split; [lia|].
      exists [b; c]. split; [reflexivity | auto].
    + destruct bs as [| b0 [| b1 [| b2 [| b3 bs]]]]; try discriminate.
      cbn -[be_value Z.pow]. intros [= <- <-]. rewrite be_value_4.
      pose proof (ord_range b0). pose proof (ord_range b1).
      pose proof (ord_range b2). pose proof (ord_range b3).
      split; [lia|]. exists [b; b0; b1; b2; b3].
      split; [reflexivity | auto].
  - apply Z.ltb_ge in E1. intros [= <- <-]. split; [lia|].
    exists [b]. split; [reflexivity | auto].
Qed.

Lemma int_reads_a_prefix_witness :
  0 <= 258 < 2 ^ 32
  /\ exists read,
      [xe1; x02; x07] = read ++ [x07]
      /\ (length read = 1%nat \/ length read = 2%nat
          \/ length read = 5%nat).
Proof.
  apply (proj1 (int_reads_a_prefix [xe1; x02; x07]) 258 [x07]).
  reflexivity.
Defined.

Lemma Array_Bytes_whole (count : nat) :
  forall bs ws rest,
    Array count (Bytes 4) bs = Some (ws, rest) ->
    Forall (fun w => length w = 4%nat) ws.
Proof.
  induction count as [| count IH]; intros bs ws rest; cbn [Array].
  - intros [= <- _]. constructor.
  - unfold Bytes at 1. destruct (4 <=? length bs)%nat eqn:E4;
      [|discriminate].
    destruct (Array count (Bytes 4) (drop 4 bs)) as [[xs r] |] eqn:E;
      [|discriminate].
    intros [= <- _]. constructor; [|eapply IH, E].
    apply Nat.leb_le in E4. rewrite length_take. lia.
Qed.

(** Every run holds whole words. *)
Lemma data_whole_words (bs rest : list byte) (run : Bitmap.run) :
  Bitmap.data bs = Some (run, rest) ->
  Forall (fun w => length w = 4%nat) (Bitmap.pixels run).
Proof.
  unfold Bitmap.data.
  destruct (Bitmap._int bs) as [[V bs1] |]; [|discriminate]. cbn.
  set (n := (V - V mod 4) / 4).
  destruct (V mod 4) as [| [[? | ? |] | [? | ? |] |] | ?]; try discriminate.
  - (* 0 *)
    intros [= <- _]. cbn. unfold Bitmap.repeat_value.
    now apply Forall_replicate.
  - (* 3 *)
    change (Z.pos 3) with 3.
    destruct (Array (Z.to_nat n) (Bytes 4) bs1) as [[ws bs2] |] eqn:E;
      [|discriminate].
    cbn. intros [= <- _]. cbn. eapply Array_Bytes_whole, E.
  - (* 2 *)
    unfold Bytes. destruct (4 <=? length bs1)%nat eqn:E4; [|discriminate].
    cbn. intros [= <- _]. cbn. unfold Bitmap.repeat_value.
    apply Forall_replicate. apply Nat.leb_le in E4.
    rewrite length_take. lia.
  - (* 1 *)
    unfold Bytes. destruct (1 <=? length bs1)%nat eqn:E1; [|discriminate].
    cbn. intros [= <- _]. cbn. unfold Bitmap.repeat_value.
    apply Forall_replicate. apply Nat.leb_le in E1.
    rewrite !length_app, length_take. lia.
Qed.

Lemma greedy_whole_words (fuel : nat) (bs : list byte) :
  Forall (fun run => Forall (fun w => length w = 4%nat) (Bitmap.pixels run))
    (greedy fuel Bitmap.data bs).1.
Proof.
  revert bs. induction fuel as [| fuel IH]; intros bs; cbn [greedy].
  - constructor.
  - destruct (Bitmap.data bs) as [[run rest] |] eqn:E; [|constructor].
    specialize (IH rest).
    destruct (greedy fuel Bitmap.data rest) as [rs rest'].
    cbn in *. constructor; [eapply data_whole_words, E | exact IH].
Qed.

Lemma whole_words_length (runs : list Bitmap.run) :
  Forall (fun run => Forall (fun w => length w = 4%nat) (Bitmap.pixels run))
    runs ->
  exists n,
    length (concat (map (fun run => concat (Bitmap.pixels run)) runs))
    = (4 * n)%nat.
Proof.
  induction 1 as [| run runs Hrun _ [n IH]]; [now exists 0%nat|].
  cbn [map concat]. rewrite length_app, IH.
  assert (Hw : exists m, length (concat (Bitmap.pixels run)) = (4 * m)%nat).
  { clear -Hrun. induction Hrun as [| w ws Hw _ [m IH]]; [now exists 0%nat|].
    cbn [concat]. rewrite length_app, Hw, IH. exists (S m). lia. }
  destruct Hw as [m ->]. exists (m + n)%nat. lia.
Qed.

Lemma greedy_runs_then (tail bs : list byte) wordss :
  runs_then tail bs wordss ->
  Bitmap.data tail = None ->
  forall fuel, (length bs <= fuel)%nat ->
  exists rs,
    greedy fuel Bitmap.data bs = (rs, tail)
    /\ map Bitmap.pixels rs = wordss.
Proof.
  intros Hruns Htail.
  induction Hruns as [| bs V body rest words wordss Hint Hbody _ IH];
    intros fuel Hfuel.
  - exists []. destruct fuel; cbn [greedy]; [|rewrite Htail]; split;
      reflexivity.
  - pose proof (int_consumes _ _ _ Hint) as Hlt.
    destruct fuel as [| fuel]; [lia|].
    destruct (IH fuel) as (rs & E & Hrs).
    { rewrite length_app in Hlt. lia. }
    cbn [greedy]. rewrite (data_run _ _ _ _ _ Hint Hbody), E.
    eexists; split; [reflexivity|]. cbn. now rewrite Hrs.
Qed.

(** X2.  [from_byte_array] raises only when the length prefix cannot be
    read, as on an empty input; once the prefix is read it returns a
    Bitmap, whatever follows. *)
Theorem from_byte_array_raises_iff (bs : list byte) :
  (Bitmap.from_byte_array bs = Raise ConstructError
   <-> Bitmap._int bs = None)
  /\ ((exists bitmap, Bitmap.from_byte_array bs = Ok bitmap)
      <-> Bitmap._int bs <> None)
  /\ (bs = [] -> Bitmap.from_byte_array bs = Raise ConstructError).
Proof.
  unfold Bitmap.from_byte_array, Bitmap._length_run_coding,
    OptionalGreedyRepeater.
  destruct (Bitmap._int bs) as [[L rest] |] eqn:E; cbn.
  - destruct (greedy (length rest) Bitmap.data rest) as [rs rest'].
    cbn. repeat split; try discriminate.
    + intros _. eexists. reflexivity.
    + intros ->. discriminate.
  - repeat split; try reflexivity.
    + intros [bitmap [=]].
    + congruence.
Qed.

Lemma from_byte_array_raises_iff_witness :
  Bitmap.from_byte_array [xff; x00; x00] = Raise ConstructError.
Proof.
  apply (proj1 (from_byte_array_raises_iff [xff; x00; x00])).
  reflexivity.
Defined.

(** X3.  The bytes [from_byte_array] returns are whole 32-bit words, and
    [to_value] declares exactly their number. *)
Theorem from_byte_array_whole_words (bs : list byte) (bitmap : Bitmap.t) :
  Bitmap.from_byte_array bs = Ok bitmap ->
  exists n : nat,
    length (Bitmap.value bitmap) = (4 * n)%nat
    /\ Container.length (Bitmap_to_value bitmap) = Z.of_nat n
    /\ Container.items (Bitmap_to_value bitmap) = Bitmap.value bitmap.
Proof.
  unfold Bitmap.from_byte_array, Bitmap._length_run_coding,
    OptionalGreedyRepeater.
  destruct (Bitmap._int bs) as [[L rest] |]; [|discriminate]. cbn.
  pose proof (greedy_whole_words (length rest) rest) as Hw.
  destruct (greedy (length rest) Bitmap.data rest) as [rs rest'].
  cbn in *. intros [= <-].
  destruct (whole_words_length rs Hw) as [n Hn].
  exists n. unfold Bitmap_to_value. cbn. rewrite Hn.
  repeat split; try reflexivity.
  replace (Z.of_nat (4 * n) + 2) with (2 + Z.of_nat n * 4) by lia.
  rewrite Z.div_add by lia. reflexivity.
Qed.

Lemma from_byte_array_whole_words_witness :
  exists n : nat,
    length [x09; x09; x09; x09; x00; x00; x00; x00] = (4 * n)%nat
    /\ Container.length
         (Bitmap_to_value
            (Bitmap.Bitmap [x09; x09; x09; x09; x00; x00; x00; x00]))
       = Z.of_nat n
    /\ Container.items
         (Bitmap_to_value
            (Bitmap.Bitmap [x09; x09; x09; x09; x00; x00; x00; x00]))
       = [x09; x09; x09; x09; x00; x00; x00; x00].
Proof.
  apply (from_byte_array_whole_words [x02; x05; x09; x04]
           (Bitmap.Bitmap [x09; x09; x09; x09; x00; x00; x00; x00])).
  reflexivity.
Defined.

(** X4.  A run that cannot be read in full ends the decoding without an
    error: the result holds the words of the whole runs before it and
    nothing of what follows. *)
Theorem from_byte_array_drops_unreadable_tail
    (bs rest tail : list byte) (L : Z) wordss :
  Bitmap._int bs = Some (L, rest) ->
  runs_then tail rest wordss ->
  Bitmap.data tail = None ->
  Bitmap.from_byte_array bs
  = Ok (Bitmap.Bitmap (concat (map (fun words => concat words) wordss))).
Proof.
  intros Hint Hruns Htail.
  unfold Bitmap.from_byte_array, Bitmap._length_run_coding,
    OptionalGreedyRepeater.
  rewrite Hint. cbn.
  destruct (greedy_runs_then _ _ _ Hruns Htail (length rest))
    as (rs & E & Hrs); [lia|].
  rewrite E. cbn. rewrite <- Hrs, map_map. reflexivity.
Qed.

Lemma from_byte_array_drops_unreadable_tail_witness :
  Bitmap.from_byte_array
    [x02; x06; x0a; x0b; x0c; x0d; x0b; x01; x02; x03; x04; x05; x06; x07]
  = Ok (Bitmap.Bitmap [x0a; x0b; x0c; x0d]).
Proof.
  apply (from_byte_array_drops_unreadable_tail
           [x02; x06; x0a; x0b; x0c; x0d;
            x0b; x01; x02; x03; x04; x05; x06; x07]
           [x06; x0a; x0b; x0c; x0d;
            x0b; x01; x02; x03; x04; x05; x06; x07]
           [x0b; x01; x02; x03; x04; x05; x06; x07] 2
           [[[x0a; x0b; x0c; x0d]]]).
  - reflexivity.
  - apply (runs_then_run _ _ 6 [x0a; x0b; x0c; x0d]
             [x0b; x01; x02; x03; x04; x05; x06; x07]);
      [reflexivity | apply (RunLength.body_word 6); reflexivity |].
    apply runs_then_tail.
  - reflexivity.
Defined.

(** X5.  The length that opens the data is not used: two inputs that differ
    only in it decode to the same Bitmap. *)
Theorem from_byte_array_ignores_length
    (bs1 bs2 rest : list byte) (L1 L2 : Z) :
  Bitmap._int bs1 = Some (L1, rest) ->
  Bitmap._int bs2 = Some (L2, rest) ->
  Bitmap.from_byte_array bs1 = Bitmap.from_byte_array bs2.
Proof.
  intros H1 H2.
  unfold Bitmap.from_byte_array, Bitmap._length_run_coding,
    OptionalGreedyRepeater.
  rewrite H1, H2. cbn.
  now destruct (greedy (length rest) Bitmap.data rest).
Qed.

Lemma from_byte_array_ignores_length_witness :
  Bitmap.from_byte_array [x01; x05; x09]
  = Bitmap.from_byte_array [xff; x00; x00; x00; x63; x05; x09].
Proof.
  apply (from_byte_array_ignores_length
           [x01; x05; x09] [xff; x00; x00; x00; x63; x05; x09]
           [x05; x09] 1 99);
    reflexivity.
Defined.

(** ** Pixels of a depth-32 Form *)

(** The words of whole-word bits, as [to_array] returns them. *)
Lemma to_pixels_32_whole (n : nat) (bits : list byte) :
  length bits = (4 * n)%nat ->
  exists rgba,
    length rgba = length bits
    /\ corrected rgba = rgba
    /\ forall width x acc,
        Form.while_1 width 0 (Form._to_pixels_32 bits) x acc
        = Ok (acc ++ rgba).
Proof.
  revert n bits. apply rgba_ind.
  - exists []. repeat split; try reflexivity.
    intros. cbn. now rewrite app_nil_r.
  - intros a r g b rest (rgba & Hlen & Hfix & Hloop).
    exists (corrected_pixel r g b a ++ rgba). repeat split.
    + rewrite length_app, corrected_pixel_length, Hlen. reflexivity.
    + now rewrite corrected_pixel_again, Hfix.
    + intros width x acc. cbn [Form._to_pixels_32].
      rewrite corrected_pixel_to_B, while_1_yield. cbn [Form.skip_pixels].
      rewrite app_assoc. destruct (width <=? x + 1); apply Hloop.
Qed.

(** Bits that end inside a word. *)
Lemma to_pixels_32_ragged (n k : nat) (bits : list byte) :
  length bits = (4 * n + k)%nat ->
  (1 <= k <= 3)%nat ->
  forall width x acc,
    Form.while_1 width 0 (Form._to_pixels_32 bits) x acc = Raise ValueError.
Proof.
  intros Hlen Hk. revert bits Hlen.
  induction n as [| n IH]; intros bits Hlen width x acc.
  - destruct bits as [| b0 [| b1 [| b2 [| b3 bits]]]];
      cbn in Hlen; try lia; reflexivity.
  - destruct bits as [| a [| r [| g [| b rest]]]]; cbn in Hlen; try lia.
    cbn [Form._to_pixels_32].
    rewrite corrected_pixel_to_B, while_1_yield. cbn [Form.skip_pixels].
    destruct (width <=? x + 1); apply IH; lia.
Qed.

Lemma whole_or_ragged {A} (l : list A) :
  (exists n : nat, length l = (4 * n)%nat)
  \/ (exists n k : nat, length l = (4 * n + k)%nat /\ (1 <= k <= 3)%nat).
Proof.
  pose proof (Nat.div_mod (length l) 4 ltac:(lia)) as Hdm.
  pose proof (Nat.mod_upper_bound (length l) 4 ltac:(lia)) as Hm.
  destruct (length l mod 4)%nat as [| k] eqn:E.
  - left. exists (length l / 4)%nat. lia.
  - right. exists (length l / 4)%nat, (S k). lia.
Qed.

(** X6.  At depth 32 [to_array] needs whole 4-byte words and nothing else:
    it returns one RGBA pixel per word of the bits, whatever the width,
    the height and the palette are, and raises [ValueError] when the
    bits end inside a word. *)
Theorem to_array_depth_32 (bits : list byte) :
  ((exists n : nat, length bits = (4 * n)%nat) ->
   exists rgba,
     length rgba = length bits
     /\ forall width height privateOffset colors,
         Form.to_array
           (Form.Form width height 32 privateOffset (Bitmap.Bitmap bits)
              colors)
         = Ok (width, height, rgba))
  /\ ((forall n : nat, length bits <> (4 * n)%nat) ->
      forall width height privateOffset colors,
        Form.to_array
          (Form.Form width height 32 privateOffset (Bitmap.Bitmap bits)
             colors)
        = Raise ValueError).
Proof.
  split.
  - intros [n Hn].
    destruct (to_pixels_32_whole n bits Hn) as (rgba & Hlen & _ & Hloop).
    exists rgba. split; [exact Hlen|].
    intros. unfold Form.to_array, Form._to_pixels. cbn.
    now rewrite Hloop.
  - intros Hn width height privateOffset colors.
    unfold Form.to_array, Form._to_pixels. cbn.
    destruct (whole_or_ragged bits) as [[n E] | (n & k & E & Hk)];
      [now apply Hn in E|].
    now rewrite (to_pixels_32_ragged n k).
Qed.

Lemma to_array_depth_32_witness :
  Form.to_array
    (Form.Form 7 9 32 None (Bitmap.Bitmap [x00; x01; x02; x03; x04]) None)
  = Raise ValueError.
Proof.
  apply (proj2 (to_array_depth_32 [x00; x01; x02; x03; x04])).
  intros n. cbn. lia.
Defined.

Lemma raw_of_rgba_length (n : nat) px :
  length px = (4 * n)%nat ->
  forall raw, Form.raw_of_rgba px = Ok raw -> length raw = length px.
Proof.
  revert n px.
  apply (rgba_ind (fun px => forall raw,
                     Form.raw_of_rgba px = Ok raw -> length raw = length px)).
  - now intros raw [= <-].
  - intros r g b a rest IH raw. cbn [Form.raw_of_rgba].
    destruct (Form.raw_of_rgba rest) as [raw' |] eqn:E; [|discriminate].
    cbn. intros [= <-]. cbn. do 4 f_equal. now apply IH.
Qed.

(** X7.  What [to_array] returns for a depth-32 Form can be imported again
    unchanged: [from_array] accepts it and the new Form decodes to the
    same array. *)
Theorem to_array_from_array_stable (self : Form.t) (rgba : list byte) :
  Form.depth self = 32 ->
  Form.to_array self = Ok (Form.width self, Form.height self, rgba) ->
  exists form,
    Form.from_array (Form.width self) (Form.height self) rgba = Ok form
    /\ Form.to_array form = Ok (Form.width self, Form.height self, rgba)
    /\ length (Bitmap.value (Form.bits form))
       = length (Bitmap.value (Form.bits self)).
Proof.
  intros Hd. unfold Form.to_array at 1. unfold Form._to_pixels.
  rewrite Hd. cbn.
  destruct (whole_or_ragged (Bitmap.value (Form.bits self)))
    as [[n E] | (n & k & E & Hk)].
  - destruct (to_pixels_32_whole n _ E) as (out & Hlen & Hfix & Hloop).
    rewrite Hloop. cbn. intros [= <-].
    destruct (from_array_pixels n out) as (raw & Eraw & Hraw); [lia|].
    exists (Form.Form (Form.width self) (Form.height self) 32 None
              (Bitmap.Bitmap raw) None).
    split; [unfold Form.from_array; now rewrite Eraw|].
    split.
    + unfold Form.to_array, Form._to_pixels. cbn.
      rewrite Hraw, Hfix. reflexivity.
    + cbn. rewrite <- Hlen. apply (raw_of_rgba_length n); [lia | exact Eraw].
  - now rewrite (to_pixels_32_ragged n k).
Qed.

Lemma to_array_from_array_stable_witness :
  exists form,
    Form.from_array 1 2 [x01; x02; x03; xff; x00; x00; x00; x00] = Ok form
    /\ Form.to_array form
       = Ok (1, 2, [x01; x02; x03; xff; x00; x00; x00; x00])
    /\ length (Bitmap.value (Form.bits form)) = 8%nat.
Proof.
  apply (to_array_from_array_stable
           (Form.Form 1 2 32 None
              (Bitmap.Bitmap [x00; x01; x02; x03; x00; x00; x00; x00]) None)
           [x01; x02; x03; xff; x00; x00; x00; x00]);
    reflexivity.
Defined.

Lemma raw_of_rgba_ragged (n k : nat) (px : list byte) :
  length px = (4 * n + k)%nat ->
  (1 <= k <= 3)%nat ->
  Form.raw_of_rgba px = Raise ValueError.
Proof.
  intros Hlen Hk. revert px Hlen.
  induction n as [| n IH]; intros px Hlen.
  - destruct px as [| b0 [| b1 [| b2 [| b3 px]]]];
      cbn in Hlen; try lia; reflexivity.
  - destruct px as [| r [| g [| b [| a rest]]]]; cbn in Hlen; try lia.
    cbn [Form.raw_of_rgba]. rewrite IH by lia. reflexivity.
Qed.

(** X8.  [from_array] takes any array of whole RGBA pixels, without looking
    at the width and the height it is given, and stores as many bytes as
    it got in a depth-32 Form; an array that ends inside a pixel raises
    [ValueError]. *)
Theorem from_array_whole_pixels (width height : Z) (rgba : list byte) :
  ((exists n : nat, length rgba = (4 * n)%nat) ->
   exists raw,
     Form.from_array width height rgba
     = Ok (Form.Form width height 32 None (Bitmap.Bitmap raw) None)
     /\ length raw = length rgba)
  /\ ((forall n : nat, length rgba <> (4 * n)%nat) ->
      Form.from_array width height rgba = Raise ValueError).
Proof.
  split.
  - intros [n Hn].
    destruct (from_array_pixels n rgba Hn) as (raw & Eraw & _).
    exists raw. split; [unfold Form.from_array; now rewrite Eraw|].
    now apply (raw_of_rgba_length n).
  - intros Hn.
    destruct (whole_or_ragged rgba) as [[n E] | (n & k & E & Hk)];
      [now apply Hn in E|].
    unfold Form.from_array. now rewrite (raw_of_rgba_ragged n k).
Qed.

Lemma from_array_whole_pixels_witness :
  Form.from_array 1 1 [x01; x02; x03; x04; x05] = Raise ValueError.
Proof.
  apply (proj2 (from_array_whole_pixels 1 1 [x01; x02; x03; x04; x05])).
  intros n. cbn. lia.
Defined.

(** ** Depths without pixels *)

(** X9.  A depth that is neither 32, nor 16, nor at most 8 gives no error and
    no pixel: [to_array] returns an empty array whatever the bits hold.
    Depth 0 raises [ZeroDivisionError]. *)
Theorem to_array_other_depths (self : Form.t) :
  (8 < Form.depth self -> Form.depth self <> 16 -> Form.depth self <> 32 ->
   Form.to_array self = Ok (Form.width self, Form.height self, []))
  /\ (Form.depth self = 0 -> Form.to_array self = Raise ZeroDivisionError).
Proof.
  split.
  - intros H8 H16 H32. unfold Form.to_array, Form._to_pixels.
    replace (Form.depth self <=? 8) with false
      by (symmetry; apply Z.leb_gt; lia).
    replace (Form.depth self =? 32) with false
      by (symmetry; apply Z.eqb_neq; lia).
    replace (Form.depth self =? 16) with false
      by (symmetry; apply Z.eqb_neq; lia).
    reflexivity.
  - intros H0. unfold Form.to_array. rewrite H0. reflexivity.
Qed.

Lemma to_array_other_depths_witness :
  Form.to_array
    (Form.Form 1 1 24 None (Bitmap.Bitmap [xff; x00; x00]) None)
  = Ok (1, 1, []).
Proof.
  apply (proj1 (to_array_other_depths
                  (Form.Form 1 1 24 None (Bitmap.Bitmap [xff; x00; x00])
                     None)));
    [reflexivity | discriminate | discriminate].
Defined.

(** ** Rows that are not whole *)

Section ScanlineEdges.

Variables (width : Z) (skip : nat).
Hypothesis width_pos : 0 < width.

Lemma skip_pixels_then {A} (gone : list A) (rest : Form.generator A) :
  length gone = skip ->
  Form.skip_pixels skip (map Ok gone ++ rest) = Ok rest.
Proof.
  intros <-. induction gone as [| c gone IH]; [reflexivity|].
  cbn. apply IH.
Qed.

Lemma skip_pixels_short {A} (gone : list A) :
  (length gone < skip)%nat ->
  Form.skip_pixels skip (map Ok gone) = Raise StopIteration.
Proof.
  generalize skip. intros i. revert i.
  induction gone as [| c gone IH]; intros i Hi.
  - destruct i; [cbn in Hi; lia | reflexivity].
  - destruct i as [| i]; [cbn in Hi; lia|]. cbn. apply IH.
    cbn in Hi. lia.
Qed.

(** The pixels of a row, up to the one that completes it. *)
Lemma while_1_visible (vis : list (list byte)) (rest : Form.generator _) :
  vis <> [] ->
  forall x rgba,
    x + Z.of_nat (length vis) = width ->
    Form.while_1 width skip (map Ok vis ++ rest) x rgba
    = (rest' ← Form.skip_pixels skip rest;
       Form.while_1 width skip rest' 0 (rgba ++ concat vis)).
Proof.
  induction vis as [| c vis IH]; [congruence|].
  intros _ x rgba Hx. cbn [map app]. rewrite while_1_yield.
  destruct vis as [| c' vis].
  - cbn in Hx. replace (width <=? x + 1) with true
      by (symmetry; apply Z.leb_le; lia).
    cbn. now rewrite app_nil_r.
  - cbn [length] in Hx.
    replace (width <=? x + 1) with false
      by (symmetry; apply Z.leb_gt; lia).
    rewrite IH; [| discriminate | cbn [length]; lia].
    cbn [concat]. now rewrite <- app_assoc.
Qed.

(** Pixels that do not complete a row. *)
Lemma while_1_partial (vis : list (list byte)) :
  forall x rgba,
    0 <= x ->
    x + Z.of_nat (length vis) < width ->
    Form.while_1 width skip (map Ok vis) x rgba = Ok (rgba ++ concat vis).
Proof.
  induction vis as [| c vis IH]; intros x rgba Hx0 Hx.
  - cbn. now rewrite app_nil_r.
  - cbn [map]. rewrite while_1_yield. cbn [length] in Hx.
    replace (width <=? x + 1) with false
      by (symmetry; apply Z.leb_gt; lia).
    rewrite IH by lia. cbn [concat]. now rewrite <- app_assoc.
Qed.

(** Whole rows, then whatever follows. *)
Lemma while_1_rows_then (rows : list (list (list byte)))
    (rest : Form.generator _) :
  Forall (fun row => Z.of_nat (length row) = width + Z.of_nat skip) rows ->
  forall rgba,
    Form.while_1 width skip (map Ok (concat rows) ++ rest) 0 rgba
    = Form.while_1 width skip rest 0
        (rgba ++ concat (map (fun row => concat (take (Z.to_nat width) row))
                           rows)).
Proof.
  induction 1 as [| row rows Hrow _ IH]; intros rgba.
  - cbn. now rewrite app_nil_r.
  - cbn [concat map].
    rewrite <- (take_drop (Z.to_nat width) row) at 1.
    rewrite !map_app, <- !app_assoc.
    rewrite while_1_visible.
    + rewrite skip_pixels_then by (rewrite length_drop; lia).
      cbn. rewrite IH. now rewrite <- app_assoc.
    + intros E. apply (f_equal length) in E.
      rewrite length_take in E. cbn in E. lia.
    + rewrite length_take. lia.
Qed.

End ScanlineEdges.

(** What [to_array] does with a Form of depth 1 to 8 once the palette
    and the indices are known and every index has a palette entry. *)
Lemma to_array_indexed (self : Form.t) palette (indices : list Z) :
  1 <= Form.depth self <= 8 ->
  palette_of self = Ok palette ->
  indices_of self = Some indices ->
  Forall (fun i => is_Some (palette !! Z.to_nat i)) indices ->
  Form.to_array self
  = (rgba ← Form.while_1 (Form.width self)
              (Z.to_nat (row_padding (Form.depth self) (Form.width self)))
              (map Ok (map (color_at palette) indices)) 0 [];
     Ok (Form.width self, Form.height self, rgba)).
Proof.
  intros Hd Hpal Hidx Hvalid.
  assert (E8 : (Form.depth self <=? 8) = true) by (apply Z.leb_le; lia).
  assert (E0 : (Form.depth self =? 0) = false) by (apply Z.eqb_neq; lia).
  assert (E32 : (Form.depth self =? 32) = false) by (apply Z.eqb_neq; lia).
  assert (E16 : (Form.depth self =? 16) = false) by (apply Z.eqb_neq; lia).
  unfold Form.to_array, Form._to_pixels, Form._to_pixels_indexed.
  rewrite E8, E0, E32, E16.
  unfold palette_of in Hpal. rewrite Hpal.
  rewrite (indices_of_parse _ _ Hidx).
  rewrite getitem_valid by exact Hvalid. reflexivity.
Qed.

(** X10.  A last row that stops before its [width] pixels is returned as far
    as it goes, after the whole rows before it. *)
Theorem to_array_partial_last_row
    (self : Form.t) palette (rows : list (list Z)) (last : list Z) :
  1 <= Form.depth self <= 8 ->
  0 < Form.width self ->
  palette_of self = Ok palette ->
  indices_of self = Some (concat rows ++ last) ->
  Forall (fun row =>
            Z.of_nat (length row)
            = Form.width self
              + row_padding (Form.depth self) (Form.width self)) rows ->
  Z.of_nat (length last) < Form.width self ->
  Forall (fun i => is_Some (palette !! Z.to_nat i)) (concat rows ++ last) ->
  Form.to_array self
  = Ok (Form.width self, Form.height self,
        concat (map (row_bytes palette (Form.width self)) rows)
        ++ concat (map (color_at palette) last)).
Proof.
  intros Hd Hw Hpal Hidx Hrows Hlast Hvalid.
  destruct (row_padding_range _ (Form.width self) Hd) as [Hskip _].
  rewrite (to_array_indexed _ _ _ Hd Hpal Hidx Hvalid).
  rewrite !map_app.
  replace (map (color_at palette) (concat rows))
    with (concat (map (map (color_at palette)) rows))
    by (symmetry; apply concat_map).
  rewrite (while_1_rows_then _ _ Hw).
  - rewrite while_1_partial by (rewrite ?length_map; lia).
    cbn. do 3 f_equal. rewrite map_map. f_equal. apply map_ext.
    intros row. unfold row_bytes. now rewrite firstn_map.
  - apply Forall_map. eapply Forall_impl; [exact Hrows|].
    intros row Hrow. cbn beta in Hrow. cbn. rewrite length_map. lia.
Qed.

(** X11.  A last row that holds its [width] pixels but not all of its padding
    makes [to_array] raise [StopIteration]: nothing is returned, not
    even the whole rows before it. *)
Theorem to_array_short_padding
    (self : Form.t) palette (rows : list (list Z)) (last : list Z) :
  1 <= Form.depth self <= 8 ->
  0 < Form.width self ->
  palette_of self = Ok palette ->
  indices_of self = Some (concat rows ++ last) ->
  Forall (fun row =>
            Z.of_nat (length row)
            = Form.width self
              + row_padding (Form.depth self) (Form.width self)) rows ->
  Form.width self <= Z.of_nat (length last)
  < Form.width self + row_padding (Form.depth self) (Form.width self) ->
  Forall (fun i => is_Some (palette !! Z.to_nat i)) (concat rows ++ last) ->
  Form.to_array self = Raise StopIteration.
Proof.
  intros Hd Hw Hpal Hidx Hrows Hlast Hvalid.
  destruct (row_padding_range _ (Form.width self) Hd) as [Hskip _].
  rewrite (to_array_indexed _ _ _ Hd Hpal Hidx Hvalid).
  rewrite !map_app.
  replace (map (color_at palette) (concat rows))
    with (concat (map (map (color_at palette)) rows))
    by (symmetry; apply concat_map).
  rewrite (while_1_rows_then _ _ Hw).
  - rewrite <- (take_drop (Z.to_nat (Form.width self)) last).
    rewrite !map_app, while_1_visible.
    + rewrite skip_pixels_short; [reflexivity|].
      rewrite length_map, length_drop. lia.
    + intros E. apply (f_equal length) in E.
      rewrite !length_map, length_take in E. cbn in E. lia.
    + rewrite !length_map, length_take. lia.
  - apply Forall_map. eapply Forall_impl; [exact Hrows|].
    intros row Hrow. cbn beta in Hrow. cbn. rewrite length_map. lia.
Qed.

Lemma to_array_partial_last_row_witness :
  Form.to_array
    (Form.Form 3 2 4 None
       (Bitmap.Bitmap [x10; x10; x00; x00; x01])
       (Some [AColor (Color.Color 0 0 0);
              AColor (Color.Color 1023 1023 1023)]))
  = Ok (3, 2, [xff; xff; xff; xff; x00; x00; x00; xff; xff; xff; xff; xff;
               x00; x00; x00; xff; xff; xff; xff; xff]).
Proof.
  apply (to_array_partial_last_row
           (Form.Form 3 2 4 None
              (Bitmap.Bitmap [x10; x10; x00; x00; x01])
              (Some [AColor (Color.Color 0 0 0);
                     AColor (Color.Color 1023 1023 1023)]))
           [[x00; x00; x00; xff]; [xff; xff; xff; xff]]
           [[1; 0; 1; 0; 0; 0; 0; 0]] [0; 1]).
  - vm_compute. split; discriminate.
  - reflexivity.
  - reflexivity.
  - reflexivity.
  - apply (bool_decide_unpack _). vm_compute. exact I.
  - reflexivity.
  - apply (bool_decide_unpack _). vm_compute. exact I.
Defined.

Lemma to_array_short_padding_witness :
  Form.to_array
    (Form.Form 3 2 4 None
       (Bitmap.Bitmap [x10; x10; x00; x00; x01; x10])
       (Some [AColor (Color.Color 0 0 0);
              AColor (Color.Color 1023 1023 1023)]))
  = Raise StopIteration.
Proof.
  apply (to_array_short_padding
           (Form.Form 3 2 4 None
              (Bitmap.Bitmap [x10; x10; x00; x00; x01; x10])
              (Some [AColor (Color.Color 0 0 0);
                     AColor (Color.Color 1023 1023 1023)]))
           [[x00; x00; x00; xff]; [xff; xff; xff; xff]]
           [[1; 0; 1; 0; 0; 0; 0; 0]] [0; 1; 1; 0]).
  - vm_compute. split; discriminate.
  - reflexivity.
  - reflexivity.
  - reflexivity.
  - apply (bool_decide_unpack _). vm_compute. exact I.
  - vm_compute. split; [discriminate | reflexivity].
  - apply (bool_decide_unpack _). vm_compute. exact I.
Defined.

(** ** Indices and the palette *)

(** The loop reaches the first exception its generator raises. *)
Lemma skip_pixels_raise {A} (e : exn) :
  forall (skip : nat) (pixels : Form.generator A),
    Exists (fun p => exists e', p = Raise e') pixels ->
    Forall (fun p => forall e', p = Raise e' -> e' = e) pixels ->
    Form.skip_pixels skip pixels = Raise e
    \/ exists rest,
        Form.skip_pixels skip pixels = Ok rest
        /\ (length rest <= length pixels)%nat
        /\ Exists (fun p => exists e', p = Raise e') rest
        /\ Forall (fun p => forall e', p = Raise e' -> e' = e) rest.
Proof.
  induction skip as [| skip IH]; intros pixels Hex Hall.
  - right. exists pixels. auto.
  - destruct pixels as [| [c | e0] pixels].
    + inversion Hex.
    + cbn [Form.skip_pixels].
      apply Exists_cons in Hex as [[e' [=]] | Hex].
      apply Forall_cons in Hall as [_ Hall].
      destruct (IH pixels Hex Hall) as [E | (rest & E & Hlen & H1 & H2)].
      * now left.
      * right. exists rest. cbn [length]. repeat split; auto.
    + left. cbn. f_equal. apply Forall_cons in Hall as [He _].
      now apply He.
Qed.

Lemma while_1_raise (width : Z) (skip : nat) (e : exn) :
  forall (n : nat) (pixels : Form.generator (list byte)),
    (length pixels <= n)%nat ->
    Exists (fun p => exists e', p = Raise e') pixels ->
    Forall (fun p => forall e', p = Raise e' -> e' = e) pixels ->
    forall x rgba, Form.while_1 width skip pixels x rgba = Raise e.
Proof.
  induction n as [| n IH]; intros pixels Hn Hex Hall x rgba.
  - destruct pixels; [inversion Hex | cbn in Hn; lia].
  - destruct pixels as [| [c | e0] pixels].
    + inversion Hex.
    + cbn [length] in Hn.
      apply Exists_cons in Hex as [[e' [=]] | Hex].
      apply Forall_cons in Hall as [_ Hall].
      rewrite while_1_yield. destruct (width <=? x + 1).
      * destruct (skip_pixels_raise e skip pixels Hex Hall)
          as [E | (rest & E & Hlen & H1 & H2)]; rewrite E; [reflexivity|].
        cbn. apply IH; auto. lia.
      * apply IH; auto. lia.
    + cbn. f_equal. apply Forall_cons in Hall as [He _]. now apply He.
Qed.

Lemma to_array_bad_index (self : Form.t) palette (indices : list Z) :
  1 <= Form.depth self <= 8 ->
  palette_of self = Ok palette ->
  indices_of self = Some indices ->
  Exists (fun i => palette !! Z.to_nat i = None) indices ->
  Form.to_array self = Raise IndexError.
Proof.
  intros Hd Hpal Hidx Hbad.
  assert (E8 : (Form.depth self <=? 8) = true) by (apply Z.leb_le; lia).
  assert (E0 : (Form.depth self =? 0) = false) by (apply Z.eqb_neq; lia).
  assert (E32 : (Form.depth self =? 32) = false) by (apply Z.eqb_neq; lia).
  assert (E16 : (Form.depth self =? 16) = false) by (apply Z.eqb_neq; lia).
  unfold Form.to_array, Form._to_pixels, Form._to_pixels_indexed.
  rewrite E8, E0, E32, E16.
  unfold palette_of in Hpal. rewrite Hpal.
  rewrite (indices_of_parse _ _ Hidx). cbn.
  rewrite (while_1_raise _ _ IndexError
             (length (map (Form.getitem palette) indices)));
    [reflexivity | lia | |].
  - apply Exists_exists in Hbad as (i & Hi & Hnone).
    apply Exists_exists. exists (Form.getitem palette i). split.
    + apply list_elem_of_In, in_map, list_elem_of_In, Hi.
    + exists IndexError. unfold Form.getitem. now rewrite Hnone.
  - apply Forall_forall. intros p Hp e' ->.
    apply list_elem_of_In, in_map_iff in Hp as (i & Hi & _).
    unfold Form.getitem in Hi.
    destruct (palette !! Z.to_nat i); congruence.
Qed.

(** X12.  An index without a palette entry, anywhere in the bits and be it in
    the padding of a row, makes [to_array] raise [IndexError]. *)
Theorem to_array_index_error (self : Form.t) palette (indices : list Z) :
  1 <= Form.depth self <= 8 ->
  palette_of self = Ok palette ->
  indices_of self = Some indices ->
  Exists (fun i => palette !! Z.to_nat i = None) indices ->
  Form.to_array self = Raise IndexError.
Proof. exact (to_array_bad_index self palette indices). Qed.

Lemma to_array_index_error_witness :
  Form.to_array
    (Form.Form 1 1 8 None (Bitmap.Bitmap [x00; x00; x00; xc8]) None)
  = Raise IndexError.
Proof.
  apply (to_array_index_error
           (Form.Form 1 1 8 None (Bitmap.Bitmap [x00; x00; x00; xc8]) None)
           squeak_colors [0; 0; 0; 200]).
  - vm_compute. split; discriminate.
  - reflexivity.
  - reflexivity.
  - apply (bool_decide_unpack _). vm_compute. exact I.
Defined.

Lemma bits_value_range (bits : list bool) :
  0 <= bits_value bits < 2 ^ Z.of_nat (length bits).
Proof.
  unfold bits_value.
  assert (G : forall l acc,
             0 <= acc ->
             acc * 2 ^ Z.of_nat (length l)
             <= fold_left (fun acc (b : bool) => 2 * acc + (if b then 1 else 0))
                  l acc
             < (acc + 1) * 2 ^ Z.of_nat (length l)).
  { induction l as [| b l IH]; intros acc Hacc.
    - cbn. lia.
    - cbn [fold_left length]. rewrite Nat2Z.inj_succ, Z.pow_succ_r by lia.
      specialize (IH (2 * acc + (if b then 1 else 0))
                    ltac:(destruct b; lia)).
      assert (0 < 2 ^ Z.of_nat (length l)) by (apply Z.pow_pos_nonneg; lia).
      destruct b; nia. }
  specialize (G bits 0 ltac:(lia)). lia.
Qed.

Lemma BitArray_range (n count : nat) :
  forall bits xs,
    BitArray count n bits = Some xs ->
    Forall (fun x => 0 <= x < 2 ^ Z.of_nat n) xs.
Proof.
  induction count as [| count IH]; intros bits xs; cbn [BitArray].
  - intros [= <-]. constructor.
  - unfold Bits. destruct (n <=? length bits)%nat eqn:E; [|discriminate].
    destruct (BitArray count n (drop n bits)) as [ys |] eqn:E';
      [|discriminate].
    intros [= <-]. constructor; [|eapply IH, E'].
    apply Nat.leb_le in E. pose proof (bits_value_range (take n bits)) as Hr.
    rewrite length_take in Hr. now replace (n `min` length bits)%nat with n
      in Hr by lia.
Qed.

(** X13.  An index read from the bits of a Form of depth 1 to 8 is below
    [2 ^ depth], so a palette with [2 ^ depth] entries has every index;
    the default table has the indices of every depth up to 7. *)
Theorem indices_below_two_to_depth (self : Form.t) (indices : list Z) :
  1 <= Form.depth self <= 8 ->
  indices_of self = Some indices ->
  Forall (fun i => 0 <= i < 2 ^ Form.depth self) indices
  /\ (forall palette : list (list byte),
         2 ^ Form.depth self <= Z.of_nat (length palette) ->
         Forall (fun i => is_Some (palette !! Z.to_nat i)) indices)
  /\ (Form.depth self <= 7 ->
      Forall (fun i => is_Some (squeak_colors !! Z.to_nat i)) indices).
Proof.
  intros Hd Hidx.
  apply indices_of_parse, pixels_construct_BitArray, BitArray_range in Hidx. rewrite Z2Nat.id in Hidx by lia.
  assert (Hpal : forall palette : list (list byte),
             2 ^ Form.depth self <= Z.of_nat (length palette) ->
             Forall (fun i => is_Some (palette !! Z.to_nat i)) indices).
  { intros palette Hlen. eapply Forall_impl; [exact Hidx|].
    intros i Hi. cbn beta in Hi. apply lookup_lt_is_Some. lia. }
  split; [exact Hidx|]. split; [exact Hpal|].
  intros H7. apply Hpal.
  change (Z.of_nat (length squeak_colors)) with 192.
  assert (2 ^ Form.depth self <= 2 ^ 7)
    by (apply Z.pow_le_mono_r; lia).
  lia.
Qed.

Lemma indices_below_two_to_depth_witness :
  Forall (fun i => 0 <= i < 2 ^ 2) [3; 0; 1; 2].
Proof.
  refine (proj1 (indices_below_two_to_depth
                   (Form.Form 4 1 2 None (Bitmap.Bitmap [xc6]) None)
                   [3; 0; 1; 2] _ _)).
  - vm_compute. split; discriminate.
  - reflexivity.
Defined.

Lemma bits_value_byte (b : byte) : bits_value (bits_of_byte b) = ord b.
Proof. destruct b; reflexivity. Qed.

Lemma Bits_byte (b : byte) (rest : list bool) :
  Bits 8 (bits_of_byte b ++ rest) = Some (ord b, rest).
Proof.
  unfold Bits. rewrite length_app.
  change (length (bits_of_byte b)) with 8%nat.
  replace (8 <=? 8 + length rest)%nat with true
    by (symmetry; apply Nat.leb_le; lia).
  rewrite (take_app_length' _ _ 8), (drop_app_length' _ _ 8)
    by reflexivity.
  now rewrite bits_value_byte.
Qed.

Lemma BitArray_bytes (bs : list byte) :
  BitArray (length bs) 8 (bits_of_bytes bs) = Some (map ord bs).
Proof.
  induction bs as [| b bs IH]; [reflexivity|].
  unfold bits_of_bytes. cbn [length BitArray map concat].
  fold (bits_of_bytes bs). now rewrite Bits_byte, IH.
Qed.

(** X14.  At depth 8 each byte of the bits is one index; with the default
    table a byte from 192 on makes [to_array] raise [IndexError]. *)
Theorem depth_8_indices_are_bytes (self : Form.t) :
  Form.depth self = 8 ->
  indices_of self = Some (map ord (Bitmap.value (Form.bits self)))
  /\ (Form.colors self = None ->
      Exists (fun b => 192 <= ord b) (Bitmap.value (Form.bits self)) ->
      Form.to_array self = Raise IndexError).
Proof.
  intros Hd.
  assert (Hidx : indices_of self
                 = Some (map ord (Bitmap.value (Form.bits self)))).
  { unfold indices_of, Form.pixels_construct. rewrite Hd.
    change (8 =? 0) with false. cbv iota.
    rewrite Z.div_mul by lia.
    set (len := Z.of_nat (length (Bitmap.value (Form.bits self)))).
    replace ((8 * len) mod 8) with 0
      by (symmetry; rewrite Z.mul_comm; apply Z_mod_mult).
    replace (8 * len / 8) with len
      by (symmetry; rewrite Z.mul_comm; apply Z.div_mul; lia).
    rewrite Z.ltb_irrefl, andb_false_r. cbn [Z.eqb negb].
    subst len. rewrite Nat2Z.id. change (Z.to_nat 8) with 8%nat.
    now rewrite BitArray_bytes. }
  split; [exact Hidx|].
  intros Hcolors Hbig.
  assert (Hpal : palette_of self = Ok squeak_colors)
    by (unfold palette_of; now rewrite Hcolors).
  assert (Hbad : Exists (fun i => squeak_colors !! Z.to_nat i = None)
                   (map ord (Bitmap.value (Form.bits self)))).
  { apply Exists_exists in Hbig as (b & Hb & Hge).
    apply Exists_exists. exists (ord b). split.
    - apply list_elem_of_In, in_map, list_elem_of_In, Hb.
    - apply lookup_ge_None.
      change (length squeak_colors) with 192%nat. lia. }
  apply (to_array_bad_index self squeak_colors _ ltac:(lia) Hpal Hidx Hbad).
Qed.

Lemma depth_8_indices_are_bytes_witness :
  indices_of (Form.Form 2 1 8 None (Bitmap.Bitmap [x05; xc0; x00; x00]) None)
  = Some [5; 192; 0; 0].
Proof.
  apply (proj1 (depth_8_indices_are_bytes
                  (Form.Form 2 1 8 None
                     (Bitmap.Bitmap [x05; xc0; x00; x00]) None)
                  eq_refl)).
Defined.

(** ** Containers on the wire *)

Section ContainerRoundTrips.

Context {Field : Type} {Field_eq : EqDecision Field}
        {Field_hash : Countable Field}.
Variable parse_Field : parser Field.
Variable build_Field : Field -> option (list byte).

(** A field that was written is read back, and the stream continues
    after it. *)
Hypothesis Field_round_trip :
  forall field bytes rest,
    build_Field field = Some bytes ->
    parse_Field (bytes ++ rest) = Some (field, rest).

Lemma Array_round_trip {A} (subcon : parser A)
    (build : A -> option (list byte)) :
  (forall x bytes rest,
      build x = Some bytes -> subcon (bytes ++ rest) = Some (x, rest)) ->
  forall items recs rest,
    mapM build items = Some recs ->
    Array (length items) subcon (concat recs ++ rest) = Some (items, rest).
Proof.
  intros Hrt items recs rest Hrecs. apply mapM_Some_1 in Hrecs.
  induction Hrecs as [| x rec items recs Hx _ IH]; [reflexivity|].
  cbn [length concat Array]. rewrite <- app_assoc, (Hrt _ _ _ Hx), IH.
  reflexivity.
Qed.

Lemma Dictionary_item_round_trip item bytes rest :
  Dictionary_item_build build_Field item = Some bytes ->
  Dictionary_item parse_Field (bytes ++ rest) = Some (item, rest).
Proof.
  destruct item as [key value]. unfold Dictionary_item_build. cbn.
  destruct (build_Field key) as [kb |] eqn:Ek; [|discriminate].
  destruct (build_Field value) as [vb |] eqn:Ev; [|discriminate].
  cbn. intros [= <-]. unfold Dictionary_item.
  rewrite <- app_assoc, (Field_round_trip _ _ _ Ek). cbn.
  now rewrite (Field_round_trip _ _ _ Ev).
Qed.

Lemma layout_round_trip {A} (subcon : parser A)
    (build : A -> option (list byte)) (items : list A) bytes rest :
  (forall x bytes rest,
      build x = Some bytes -> subcon (bytes ++ rest) = Some (x, rest)) ->
  (hdr ← Build.UBInt32 (Z.of_nat (length items));
   body ← Build.Array (Z.of_nat (length items)) build items;
   Some (hdr ++ body)) = Some bytes ->
  exists body,
    UBInt32 (bytes ++ rest) = Some (Z.of_nat (length items), body)
    /\ Array (length items) subcon body = Some (items, rest).
Proof.
  intros Hrt.
  destruct (Build.UBInt32 (Z.of_nat (length items))) as [hdr |] eqn:Eh;
    [|discriminate].
  cbn. unfold Build.Array. rewrite Z.eqb_refl.
  destruct (mapM build items) as [recs |] eqn:Er; [|discriminate].
  cbn. intros [= <-]. exists (concat recs ++ rest). split.
  - rewrite <- app_assoc. now apply UBInt32_build_parse.
  - now apply (Array_round_trip subcon build).
Qed.

(** X15.  A sequence that [Collection] writes is read back as it was, and the
    stream continues after it. *)
Theorem Collection_encode_decode (items : list Field) bytes rest :
  Collection_encode build_Field items = Some bytes ->
  Collection_decode parse_Field (bytes ++ rest) = Ok (items, rest).
Proof.
  intros Henc.
  destruct (layout_round_trip parse_Field build_Field items bytes rest
              Field_round_trip Henc) as (body & HL & Hitems).
  rewrite (Collection_decode_length _ _ _ _ HL), Nat2Z.id, Hitems.
  reflexivity.
Qed.

(** X16.  A dictionary that [Dictionary] writes is read back as it was. *)
Theorem Dictionary_encode_decode (d : gmap Field Field) bytes rest :
  Dictionary_encode build_Field d = Some bytes ->
  Dictionary_decode parse_Field (bytes ++ rest) = Ok (d, rest).
Proof.
  intros Henc.
  unfold Dictionary_encode, Dictionary_build, Dictionary_to_value in Henc.
  cbn [Container.length Container.items] in Henc.
  destruct (layout_round_trip (Dictionary_item parse_Field)
              (Dictionary_item_build build_Field) (map_to_list d) bytes rest
              Dictionary_item_round_trip Henc) as (body & HL & Hitems).
  rewrite (Dictionary_decode_length _ _ _ _ HL), Nat2Z.id, Hitems.
  now rewrite dict_map_to_list.
Qed.

End ContainerRoundTrips.

(** X17.  Reading a sequence raises nothing but the errors of the layout: the
    check of the length against the number of items never fails on what
    the layout has parsed. *)
Theorem Collection_decode_errors {Field : Type} (parse_Field : parser Field)
    (bs : list byte) (e : exn) :
  Collection_decode parse_Field bs = Raise e -> e = ConstructError.
Proof.
  destruct (UBInt32 bs) as [[L body] |] eqn:HL.
  - rewrite (Collection_decode_length _ _ _ _ HL).
    destruct (Array (Z.to_nat L) parse_Field body) as [[items rest] |];
      [discriminate | now intros [= <-]].
  - unfold Collection_decode, Collection_parse. rewrite HL. cbn.
    now intros [= <-].
Qed.

Lemma byte_field_round_trip (n : Z) (bytes rest : list byte) :
  byte_field_build n = Some bytes -> UBInt8 (bytes ++ rest) = Some (n, rest).
Proof.
  unfold byte_field_build.
  destruct ((0 <=? n) && (n <=? 255)) eqn:E; [|discriminate].
  apply andb_true_iff in E as [E1 E2].
  apply Z.leb_le in E1. apply Z.leb_le in E2.
  intros [= <-]. cbn. rewrite ord_byte_of, Z.mod_small by lia. reflexivity.
Qed.

Lemma Collection_encode_decode_witness :
  Collection_decode UBInt8 ([x00; x00; x00; x02; x07; xc8] ++ [x2a])
  = Ok ([7; 200], [x2a]).
Proof.
  apply (Collection_encode_decode UBInt8 byte_field_build
           byte_field_round_trip [7; 200] [x00; x00; x00; x02; x07; xc8]
           [x2a]).
  reflexivity.
Defined.

Lemma Dictionary_encode_decode_witness :
  Dictionary_decode UBInt8 ([x00; x00; x00; x01; x07; xc8] ++ [x2a])
  = Ok ({[7 := 200]}, [x2a]).
Proof.
  apply (Dictionary_encode_decode UBInt8 byte_field_build
           byte_field_round_trip {[7 := 200]}
           [x00; x00; x00; x01; x07; xc8] [x2a]).
  reflexivity.
Defined.

Lemma Collection_decode_errors_witness : ConstructError = ConstructError.
Proof.
  apply (Collection_decode_errors UBInt8 [x00; x00; x00; x02; x07]
           ConstructError).
  reflexivity.
Defined.

(** ** Byte strings on the wire *)

(** X18.  A String, Symbol or ByteArray that is written is read back as it
    was; reading fails when the input holds fewer bytes than the length
    it declares, or no whole length. *)
Theorem PascalString_round_trip :
  (forall value bytes rest,
      PascalString_build value = Some bytes ->
      PascalString_parse (bytes ++ rest) = Some (value, rest))
  /\ (forall bs L body,
         UBInt32 bs = Some (L, body) ->
         Z.of_nat (length body) < L ->
         PascalString_parse bs = None)
  /\ (forall bs, (length bs < 4)%nat -> PascalString_parse bs = None)
  /\ (forall bs value rest,
         PascalString_parse bs = Some (value, rest) ->
         length bs = (4 + length value + length rest)%nat).
Proof.
  split; [|split; [|split]].
  - intros value bytes rest. unfold PascalString_build.
    destruct (Build.UBInt32 (Z.of_nat (length value))) as [hdr |] eqn:E;
      [|discriminate].
    cbn. intros [= <-]. unfold PascalString_parse.
    rewrite <- app_assoc, (UBInt32_build_parse _ _ _ E). cbn.
    rewrite Nat2Z.id. apply Bytes_app.
  - intros bs L body HL Hlen. unfold PascalString_parse. rewrite HL. cbn.
    unfold Bytes. replace (Z.to_nat L <=? length body)%nat with false
      by (symmetry; apply Nat.leb_gt; lia).
    reflexivity.
  - intros bs Hlen. unfold PascalString_parse, UBInt32, Bytes.
    replace (4 <=? length bs)%nat with false
      by (symmetry; apply Nat.leb_gt; lia).
    reflexivity.
  - intros bs value rest. unfold PascalString_parse, UBInt32.
    unfold Bytes at 2.
    destruct (4 <=? length bs)%nat eqn:E4; [|discriminate].
    cbn. unfold Bytes.
    destruct (_ <=? length (drop 4 bs))%nat eqn:EL; [|discriminate].
    intros [= <- <-]. apply Nat.leb_le in E4, EL.
    rewrite length_drop in EL.
    rewrite length_take, !length_drop. lia.
Qed.

Lemma PascalString_round_trip_witness :
  PascalString_parse ([x00; x00; x00; x02; x68; x69] ++ [x2a])
  = Some ([x68; x69], [x2a]).
Proof.
  apply (proj1 PascalString_round_trip [x68; x69]
           [x00; x00; x00; x02; x68; x69] [x2a]).
  reflexivity.
Defined.

(** ** Colours *)

Lemma to_B_in_range (n : Z) :
  0 <= n <= 255 -> exists b, to_B n = Ok b /\ ord b = n.
Proof.
  intros Hn. unfold to_B.
  replace (0 <=? n) with true by (symmetry; apply Z.leb_le; lia).
  replace (n <=? 255) with true by (symmetry; apply Z.leb_le; lia).
  cbn. pose proof (Byte.to_of_N_option_map (Z.to_N n)) as Ho.
  replace (N.leb (Z.to_N n) 255) with true in Ho
    by (symmetry; apply N.leb_le; lia).
  destruct (Byte.of_N (Z.to_N n)) as [b |]; [|discriminate].
  cbn in Ho. injection Ho as Ho. exists b. split; [reflexivity|].
  unfold ord. rewrite Ho. lia.
Qed.

Lemma to_B_out_of_range (n : Z) :
  n < 0 \/ 255 < n -> to_B n = Raise OverflowError.
Proof.
  intros Hn. unfold to_B.
  destruct (0 <=? n) eqn:E0; [|reflexivity].
  destruct (n <=? 255) eqn:E1; [|reflexivity].
  apply Z.leb_le in E0, E1. lia.
Qed.

Lemma shiftr_2_range (x : Z) : 0 <= Z.shiftr x 2 <= 255 <-> 0 <= x <= 1023.
Proof.
  rewrite Z.shiftr_div_pow2 by lia. change (2 ^ 2) with 4.
  pose proof (Z.div_mod x 4 ltac:(lia)).
  pose proof (Z.mod_pos_bound x 4 ltac:(lia)). lia.
Qed.

Lemma Color_to_rgba_array_in_range (r g b : Z) :
  0 <= r <= 1023 -> 0 <= g <= 1023 -> 0 <= b <= 1023 ->
  exists xr xg xb,
    Color.to_rgba_array (Color.Color r g b) = Ok [xr; xg; xb; xff]
    /\ ord xr = r / 4 /\ ord xg = g / 4 /\ ord xb = b / 4.
Proof.
  intros Rr Rg Rb. unfold Color.to_rgba_array, Color.to_8bit. cbn.
  pose proof (shiftr_2_range r) as Hr. pose proof (shiftr_2_range g) as Hg.
  pose proof (shiftr_2_range b) as Hb.
  assert (Hdiv : forall x, Z.shiftr x 2 = x / 4)
    by (intros x; now rewrite Z.shiftr_div_pow2 by lia).
  destruct (to_B_in_range (Z.shiftr r 2)) as (xr & Er & Or); [tauto|].
  destruct (to_B_in_range (Z.shiftr g 2)) as (xg & Eg & Og); [tauto|].
  destruct (to_B_in_range (Z.shiftr b 2)) as (xb & Eb & Ob); [tauto|].
  exists xr, xg, xb. rewrite Er, Eg, Eb. cbn.
  rewrite <- !Hdiv. auto.
Qed.

(** X19.  [Color.to_rgba_array] gives the three components divided by four
    and alpha 255 when every component lies between 0 and 1023, and
    raises [OverflowError] otherwise. *)
Theorem Color_to_rgba_array_range (self : Color.t) :
  (0 <= Color.r self <= 1023 /\ 0 <= Color.g self <= 1023
   /\ 0 <= Color.b self <= 1023 ->
   exists xr xg xb,
     Color.to_rgba_array self = Ok [xr; xg; xb; xff]
     /\ ord xr = Color.r self / 4
     /\ ord xg = Color.g self / 4
     /\ ord xb = Color.b self / 4)
  /\ (~ (0 <= Color.r self <= 1023 /\ 0 <= Color.g self <= 1023
         /\ 0 <= Color.b self <= 1023) ->
      Color.to_rgba_array self = Raise OverflowError).
Proof.
  destruct self as [r g b]. unfold Color.to_rgba_array, Color.to_8bit. cbn.
  pose proof (shiftr_2_range r) as Hr. pose proof (shiftr_2_range g) as Hg.
  pose proof (shiftr_2_range b) as Hb.
  assert (Hdiv : forall x, Z.shiftr x 2 = x / 4)
    by (intros x; now rewrite Z.shiftr_div_pow2 by lia).
  split.
  - intros (Rr & Rg & Rb).
    now apply (Color_to_rgba_array_in_range r g b).
  - intros Hout.
    destruct (to_B (Z.shiftr r 2)) as [xr | e] eqn:Er.
    + destruct (to_B (Z.shiftr g 2)) as [xg | e] eqn:Eg.
      * destruct (to_B (Z.shiftr b 2)) as [xb | e] eqn:Eb.
        -- exfalso. apply Hout.
           assert (G : forall n x, to_B n = Ok x -> 0 <= n <= 255).
           { intros n x E.
             destruct (Z_le_gt_dec 0 n) as [H0 | H0];
               [destruct (Z_le_gt_dec n 255) as [H1 | H1]; [lia|]|];
               rewrite to_B_out_of_range in E by lia; discriminate. }
           apply G in Er, Eg, Eb. tauto.
        -- cbn. f_equal.
           destruct (Z_le_gt_dec 0 (Z.shiftr b 2)) as [H0 | H0];
             [destruct (Z_le_gt_dec (Z.shiftr b 2) 255) as [H1 | H1]|].
           ++ destruct (to_B_in_range (Z.shiftr b 2)) as (x & E & _);
                [lia | congruence].
           ++ rewrite to_B_out_of_range in Eb by lia. congruence.
           ++ rewrite to_B_out_of_range in Eb by lia. congruence.
      * cbn. f_equal.
        destruct (Z_le_gt_dec 0 (Z.shiftr g 2)) as [H0 | H0];
          [destruct (Z_le_gt_dec (Z.shiftr g 2) 255) as [H1 | H1]|].
        -- destruct (to_B_in_range (Z.shiftr g 2)) as (x & E & _);
             [lia | congruence].
        -- rewrite to_B_out_of_range in Eg by lia. congruence.
        -- rewrite to_B_out_of_range in Eg by lia. congruence.
    + cbn. f_equal.
      destruct (Z_le_gt_dec 0 (Z.shiftr r 2)) as [H0 | H0];
        [destruct (Z_le_gt_dec (Z.shiftr r 2) 255) as [H1 | H1]|].
      * destruct (to_B_in_range (Z.shiftr r 2)) as (x & E & _);
          [lia | congruence].
      * rewrite to_B_out_of_range in Er by lia. congruence.
      * rewrite to_B_out_of_range in Er by lia. congruence.
Qed.

Lemma Color_to_rgba_array_range_witness :
  Color.to_rgba_array (Color.Color 1024 0 0) = Raise OverflowError.
Proof.
  apply (proj2 (Color_to_rgba_array_range (Color.Color 1024 0 0))).
  cbn. lia.
Defined.

Lemma shift_up_down (x : byte) : Z.shiftr (Z.shiftl (ord x) 2) 2 = ord x.
Proof.
  rewrite Z.shiftr_div_pow2, Z.shiftl_mul_pow2 by lia.
  apply Z.div_mul. lia.
Qed.

(** X20.  A raw ARGB word that [from_32bit_raw_argb] imports converts back,
    with [to_rgba_array], to the bytes it came from in RGBA order with
    the forgotten alpha set to 255: the pixel the depth-32 branch of
    [_to_pixels] yields for the same word. *)
Theorem from_32bit_raw_argb_to_rgba_array (xa xr xg xb : byte) :
  exists color,
    TranslucentColor.from_32bit_raw_argb [xa; xr; xg; xb] = Ok color
    /\ TranslucentColor.to_rgba_array color = Ok (corrected_pixel xr xg xb xa)
    /\ Form._to_pixels_32 [xa; xr; xg; xb]
       = [TranslucentColor.to_rgba_array color].
Proof.
  assert (Hs : forall x : byte, Z.shiftl (ord x) 2 = ord x * 4).
  { intros x. now rewrite Z.shiftl_mul_pow2 by lia. }
  pose proof (ord_range xa). pose proof (ord_range xr).
  pose proof (ord_range xg). pose proof (ord_range xb).
  assert (Hpix : Form._to_pixels_32 [xa; xr; xg; xb]
                 = [Ok (corrected_pixel xr xg xb xa)]).
  { cbn [Form._to_pixels_32]. now rewrite corrected_pixel_to_B. }
  setoid_rewrite Hpix.
  unfold TranslucentColor.from_32bit_raw_argb. cbn -[Z.shiftl].
  destruct ((Z.shiftl (ord xa) 2 =? 0)
            && ((0 <? Z.shiftl (ord xr) 2) || (0 <? Z.shiftl (ord xg) 2)
                || (0 <? Z.shiftl (ord xb) 2))) eqn:E.
  - eexists. split; [reflexivity|].
    assert (Hrgba : TranslucentColor.to_rgba_array
                      (TranslucentColor.TranslucentColor
                         (Z.shiftl (ord xr) 2) (Z.shiftl (ord xg) 2)
                         (Z.shiftl (ord xb) 2) 1023)
                    = Ok (corrected_pixel xr xg xb xa)).
    { unfold TranslucentColor.to_rgba_array, TranslucentColor.to_8bit.
      cbn -[Z.shiftl Z.shiftr]. rewrite !shift_up_down, !to_B_ord.
      unfold corrected_pixel. rewrite bool_decide_eq_true_2; [reflexivity|].
      apply andb_true_iff in E as [E1 E2]. apply Z.eqb_eq in E1.
      rewrite !Hs in *. split; [lia|].
      apply orb_true_iff in E2 as [E2 | E2];
        [apply orb_true_iff in E2 as [E2 | E2]|];
        apply Z.ltb_lt in E2; lia. }
    split; [exact Hrgba | f_equal; symmetry; exact Hrgba].
  - eexists. split; [reflexivity|].
    assert (Hrgba : TranslucentColor.to_rgba_array
                      (TranslucentColor.TranslucentColor
                         (Z.shiftl (ord xr) 2) (Z.shiftl (ord xg) 2)
                         (Z.shiftl (ord xb) 2) (Z.shiftl (ord xa) 2))
                    = Ok (corrected_pixel xr xg xb xa)).
    { unfold TranslucentColor.to_rgba_array, TranslucentColor.to_8bit.
      cbn -[Z.shiftl Z.shiftr]. rewrite !shift_up_down, !to_B_ord.
      unfold corrected_pixel. rewrite bool_decide_eq_false_2; [reflexivity|].
      intros [Ha Hc]. apply andb_false_iff in E as [E | E].
      - apply Z.eqb_neq in E. rewrite Hs in E. lia.
      - apply orb_false_iff in E as [E E3].
        apply orb_false_iff in E as [E1 E2].
        apply Z.ltb_ge in E1, E2, E3. rewrite !Hs in *. lia. }
    split; [exact Hrgba | f_equal; symmetry; exact Hrgba].
Qed.

(** X21.  [from_32bit_raw_argb] reads the first four bytes of what it is
    given: it raises on fewer and does not look at more. *)
Theorem from_32bit_raw_argb_four_bytes (raw : list byte) :
  ((length raw < 4)%nat ->
   TranslucentColor.from_32bit_raw_argb raw = Raise ConstructError)
  /\ ((4 <= length raw)%nat ->
      TranslucentColor.from_32bit_raw_argb raw
      = TranslucentColor.from_32bit_raw_argb (take 4 raw)
      /\ exists color, TranslucentColor.from_32bit_raw_argb raw = Ok color).
Proof.
  split.
  - intros Hlen.
    destruct raw as [| a [| r [| g [| b rest]]]]; try reflexivity.
    cbn in Hlen. lia.
  - intros Hlen.
    destruct raw as [| a [| r [| g [| b rest]]]]; cbn in Hlen; try lia.
    split; [reflexivity|].
    unfold TranslucentColor.from_32bit_raw_argb. cbn -[Z.shiftl].
    destruct (_ && _); eexists; reflexivity.
Qed.

Lemma from_32bit_raw_argb_four_bytes_witness :
  TranslucentColor.from_32bit_raw_argb [x00; x0a; x00]
  = Raise ConstructError.
Proof.
  apply (proj1 (from_32bit_raw_argb_four_bytes [x00; x0a; x00])).
  cbn. lia.
Defined.

(** ** Colours on the wire *)

Lemma bits_value_acc (bits : list bool) (acc : Z) :
  fold_left (fun acc (b : bool) => 2 * acc + (if b then 1 else 0)) bits acc
  = acc * 2 ^ Z.of_nat (length bits) + bits_value bits.
Proof.
  unfold bits_value. revert acc.
  induction bits as [| d bits IH]; intros acc.
  - cbn. lia.
  - cbn [fold_left length].
    rewrite IH, (IH (2 * 0 + _)), Nat2Z.inj_succ, Z.pow_succ_r by lia.
    lia.
Qed.

Lemma bits_value_app (l1 l2 : list bool) :
  bits_value (l1 ++ l2)
  = bits_value l1 * 2 ^ Z.of_nat (length l2) + bits_value l2.
Proof.
  unfold bits_value at 1. rewrite fold_left_app.
  fold (bits_value l1). apply bits_value_acc.
Qed.

(** A field of [n] bits: its value, and what it leaves of the value of
    the bits. *)
Lemma Bits_field (n : nat) (bits : list bool) :
  (n <= length bits)%nat ->
  exists x,
    Bits n bits = Some (x, drop n bits)
    /\ 0 <= x < 2 ^ Z.of_nat n
    /\ bits_value bits
       = x * 2 ^ Z.of_nat (length bits - n) + bits_value (drop n bits).
Proof.
  intros Hn. exists (bits_value (take n bits)). unfold Bits.
  replace (n <=? length bits)%nat with true
    by (symmetry; apply Nat.leb_le; lia).
  split; [reflexivity|]. split.
  - pose proof (bits_value_range (take n bits)) as Hr.
    rewrite length_take in Hr.
    now replace (n `min` length bits)%nat with n in Hr by lia.
  - rewrite <- (take_drop n bits) at 1.
    rewrite bits_value_app, length_drop. reflexivity.
Qed.

Lemma bits_value_word (b0 b1 b2 b3 : byte) :
  bits_value (bits_of_bytes [b0; b1; b2; b3]) = be_value [b0; b1; b2; b3].
Proof.
  unfold bits_of_bytes. cbn [map concat]. rewrite app_nil_r.
  rewrite !bits_value_app, !bits_value_byte, be_value_4.
  change (length (bits_of_byte b3)) with 8%nat.
  change (length (bits_of_byte b2 ++ bits_of_byte b3)) with 16%nat.
  change (length (bits_of_byte b1 ++ bits_of_byte b2 ++ bits_of_byte b3))
    with 24%nat.
  lia.
Qed.

Lemma Color_construct_word (b0 b1 b2 b3 : byte) (rest : list byte) :
  exists pad r g b,
    Color_construct (b0 :: b1 :: b2 :: b3 :: rest) = Some ((r, g, b), rest)
    /\ 0 <= pad < 4
    /\ 0 <= r <= 1023 /\ 0 <= g <= 1023 /\ 0 <= b <= 1023
    /\ be_value [b0; b1; b2; b3]
       = pad * 2 ^ 30 + r * 2 ^ 20 + g * 2 ^ 10 + b.
Proof.
  unfold Color_construct.
  replace (Bytes 4 (b0 :: b1 :: b2 :: b3 :: rest))
    with (Some ([b0; b1; b2; b3], rest)) by reflexivity.
  cbn -[Bits bits_of_bytes Z.pow].
  set (bits := bits_of_bytes [b0; b1; b2; b3]).
  assert (Hlen : length bits = 32%nat) by reflexivity.
  pose proof (bits_value_word b0 b1 b2 b3) as HV. fold bits in HV.
  clearbody bits.
  destruct (Bits_field 2 bits) as (pad & E0 & R0 & V0); [lia|].
  destruct (Bits_field 10 (drop 2 bits)) as (r & E1 & R1 & V1);
    [rewrite length_drop; lia|].
  destruct (Bits_field 10 (drop 10 (drop 2 bits))) as (g & E2 & R2 & V2);
    [rewrite !length_drop; lia|].
  destruct (Bits_field 10 (drop 10 (drop 10 (drop 2 bits))))
    as (b & E3 & R3 & V3); [rewrite !length_drop; lia|].
  exists pad, r, g, b.
  rewrite E0. cbn -[Bits bits_of_bytes Z.pow].
  rewrite E1. cbn -[Bits bits_of_bytes Z.pow].
  rewrite E2. cbn -[Bits bits_of_bytes Z.pow].
  rewrite E3. cbn -[Bits bits_of_bytes Z.pow].
  split; [reflexivity|].
  rewrite !length_drop, Hlen in *.
  assert (Hnil : drop 10 (drop 10 (drop 10 (drop 2 bits))) = []).
  { apply nil_length_inv. rewrite !length_drop, Hlen. reflexivity. }
  rewrite Hnil in V3. cbn in V0, V1, V2, V3, R0, R1, R2, R3.
  change (2 ^ Z.of_nat 30) with 1073741824 in V0.
  change (2 ^ Z.of_nat 20) with 1048576 in V1.
  change (2 ^ Z.of_nat 10) with 1024 in V2, R1, R2, R3.
  change (2 ^ Z.of_nat 0) with 1 in V3.
  change (2 ^ Z.of_nat 2) with 4 in R0.
  rewrite be_value_4 in HV.
  change (2 ^ 24) with 16777216 in HV. change (2 ^ 16) with 65536 in HV.
  change (2 ^ 8) with 256 in HV.
  change (2 ^ 30) with 1073741824. change (2 ^ 20) with 1048576.
  change (2 ^ 10) with 1024.
  repeat split; lia.
Qed.

Lemma Color_construct_short (bs : list byte) :
  (length bs < 4)%nat -> Color_construct bs = None.
Proof.
  intros Hlen. unfold Color_construct, Bytes.
  replace (4 <=? length bs)%nat with false
    by (symmetry; apply Nat.leb_gt; lia).
  reflexivity.
Qed.

(** X22.  A Color read from four bytes has its three components between 0 and
    1023: they are the three 10-bit fields of the bytes' 32-bit value,
    whose two top bits are not used.  Such a colour always converts with
    [to_rgba_array].  Fewer than four bytes raise. *)
Theorem Color_decode_components :
  (forall (b0 b1 b2 b3 : byte) (rest : list byte),
      exists pad r g b,
        Color_decode (b0 :: b1 :: b2 :: b3 :: rest)
        = Ok (Color.Color r g b, rest)
        /\ 0 <= pad < 4
        /\ 0 <= r <= 1023 /\ 0 <= g <= 1023 /\ 0 <= b <= 1023
        /\ be_value [b0; b1; b2; b3]
           = pad * 2 ^ 30 + r * 2 ^ 20 + g * 2 ^ 10 + b
        /\ exists xr xg xb,
            Color.to_rgba_array (Color.Color r g b) = Ok [xr; xg; xb; xff]
            /\ ord xr = r / 4 /\ ord xg = g / 4 /\ ord xb = b / 4)
  /\ (forall bs : list byte,
         (length bs < 4)%nat -> Color_decode bs = Raise ConstructError).
Proof.
  split.
  - intros b0 b1 b2 b3 rest.
    destruct (Color_construct_word b0 b1 b2 b3 rest)
      as (pad & r & g & b & E & Rp & Rr & Rg & Rb & HV).
    exists pad, r, g, b. unfold Color_decode. rewrite E.
    repeat split; try lia; try reflexivity.
    now apply Color_to_rgba_array_in_range.
  - intros bs Hlen. unfold Color_decode.
    now rewrite Color_construct_short.
Qed.

(** X23.  A TranslucentColor read from five bytes has the components of the
    Color in its first four bytes and the fifth byte as alpha, so an
    alpha of at most 255; [to_rgba_array] gives a quarter of it, at most
    63. *)
Theorem TranslucentColor_decode_alpha
    (b0 b1 b2 b3 xa : byte) (rest : list byte) :
  exists r g b,
    Color_decode (b0 :: b1 :: b2 :: b3 :: xa :: rest)
    = Ok (Color.Color r g b, xa :: rest)
    /\ TranslucentColor_decode (b0 :: b1 :: b2 :: b3 :: xa :: rest)
       = Ok (TranslucentColor.TranslucentColor r g b (ord xa), rest)
    /\ exists xr xg xb xalpha,
        TranslucentColor.to_rgba_array
          (TranslucentColor.TranslucentColor r g b (ord xa))
        = Ok [xr; xg; xb; xalpha]
        /\ ord xr = r / 4 /\ ord xg = g / 4 /\ ord xb = b / 4
        /\ ord xalpha = ord xa / 4
        /\ ord xalpha <= 63.
Proof.
  destruct (Color_construct_word b0 b1 b2 b3 (xa :: rest))
    as (pad & r & g & b & E & Rp & Rr & Rg & Rb & HV).
  exists r, g, b.
  split; [unfold Color_decode; now rewrite E|].
  split; [unfold TranslucentColor_decode, TranslucentColor_construct;
          now rewrite E|].
  pose proof (ord_range xa) as Ra.
  assert (Hdiv : forall x, Z.shiftr x 2 = x / 4)
    by (intros x; now rewrite Z.shiftr_div_pow2 by lia).
  destruct (to_B_in_range (Z.shiftr r 2)) as (xr & Er & Or);
    [apply shiftr_2_range; lia|].
  destruct (to_B_in_range (Z.shiftr g 2)) as (xg & Eg & Og);
    [apply shiftr_2_range; lia|].
  destruct (to_B_in_range (Z.shiftr b 2)) as (xb & Eb & Ob);
    [apply shiftr_2_range; lia|].
  destruct (to_B_in_range (Z.shiftr (ord xa) 2)) as (xalpha & Ea & Oa);
    [apply shiftr_2_range; lia|].
  exists xr, xg, xb, xalpha.
  unfold TranslucentColor.to_rgba_array, TranslucentColor.to_8bit.
  cbn -[Z.shiftr]. rewrite Er, Eg, Eb, Ea. cbn.
  rewrite <- !Hdiv. repeat split; auto.
  rewrite Oa, Hdiv.
  enough (ord xa / 4 < 64) by lia.
  apply Z.div_lt_upper_bound; lia.
Qed.

Lemma Color_decode_components_witness :
  Color_decode [x3f; xf0; x00] = Raise ConstructError.
Proof.
  apply (proj2 Color_decode_components [x3f; xf0; x00]). cbn. lia.
Defined.

(** ** Building the bits of a Form *)

(** X24.  [built] leaves a Bitmap in [bits] or raises.  A Bitmap is kept
    as it is.  A ByteArray is replaced by the Bitmap its run-length
    decoding gives, and the error of that decoding is raised when it
    fails, as on an empty ByteArray.  An object that is neither fails
    the assertion.  After a call that returned, a second call changes
    nothing. *)
Theorem built_gives_a_bitmap :
  (forall bitmap, built (BitsBitmap bitmap) = Ok (BitsBitmap bitmap))
  /\ built BitsOther = Raise AssertionError
  /\ (forall value,
         built (BitsByteArray value)
         = match Bitmap.from_byte_array value with
           | Ok bitmap => Ok (BitsBitmap bitmap)
           | Raise e => Raise e
           end)
  /\ built (BitsByteArray []) = Raise ConstructError
  /\ (forall bits bits',
         built bits = Ok bits' ->
         (exists bitmap, bits' = BitsBitmap bitmap)
         /\ built bits' = Ok bits').
Proof.
  split; [reflexivity|]. split; [reflexivity|].
  split.
  { intros value. unfold built. cbn.
    now destruct (Bitmap.from_byte_array value). }
  split; [reflexivity|].
  intros bits bits'. unfold built at 1.
  destruct bits as [value | bitmap |]; cbn.
  - destruct (Bitmap.from_byte_array value) as [bitmap | e] eqn:E;
      cbn; [|discriminate].
    intros [= <-]. split; [eauto | reflexivity].
  - intros [= <-]. split; [eauto | reflexivity].
  - discriminate.
Qed.

Lemma built_gives_a_bitmap_witness :
  built (BitsBitmap (Bitmap.Bitmap [x09; x09; x09; x09]))
  = Ok (BitsBitmap (Bitmap.Bitmap [x09; x09; x09; x09])).
Proof.
  apply (proj2 (proj2 (proj2 (proj2 built_gives_a_bitmap)))
           (BitsByteArray [x01; x05; x09])
           (BitsBitmap (Bitmap.Bitmap [x09; x09; x09; x09]))
           eq_refl).
Defined.

(** ** Loading a PNG *)

Lemma load_png_loop_alpha (color_array : list byte) :
  forall count start rgba_array,
    load_png_loop true 4 color_array (range_by 4 count start) rgba_array
    = Some (rgba_array ++ take (4 * count) (drop start color_array)).
Proof.
  induction count as [| count IH]; intros start rgba_array.
  - cbn. now rewrite app_nil_r.
  - cbn [range_by load_png_loop]. rewrite IH. unfold slice.
    replace (start + 4 - start)%nat with 4%nat by lia.
    rewrite <- app_assoc. do 2 f_equal.
    rewrite <- drop_drop.
    replace (4 * S count)%nat with (4 + 4 * count)%nat by lia.
    now rewrite take_take_drop.
Qed.

(** X25.  [load_png] takes 8-bit images only.  An image with an alpha channel
    is handed to [from_array] as it is.  For an image without one, with
    at least one sample, the loop that should add alpha 255 raises
    [TypeError] on the first pixel: no Form is made. *)
Theorem load_png_needs_alpha (width height : Z) (color_array : list byte) :
  (forall bitdepth alpha,
      bitdepth <> 8 ->
      load_png width height color_array bitdepth alpha
      = Loaded (Raise ValueError))
  /\ load_png width height color_array 8 true
     = Loaded (Form.from_array width height color_array)
  /\ (color_array <> [] ->
      load_png width height color_array 8 false = TypeError)
  /\ load_png width height [] 8 false
     = Loaded (Ok (Form.Form width height 32 None (Bitmap.Bitmap []) None)).
Proof.
  split; [|split; [|split]].
  - intros bitdepth alpha Hd. unfold load_png.
    replace (bitdepth =? 8) with false by (symmetry; apply Z.eqb_neq; lia).
    reflexivity.
  - unfold load_png, range0. cbn [Z.eqb negb Pos.eqb].
    rewrite load_png_loop_alpha, drop_0. cbn [app].
    rewrite take_ge; [reflexivity|].
    pose proof (Nat.div_mod (length color_array + 4 - 1) 4 ltac:(lia)).
    pose proof (Nat.mod_upper_bound (length color_array + 4 - 1) 4
                  ltac:(lia)).
    lia.
  - intros Hne. unfold load_png, range0. cbn [Z.eqb negb Pos.eqb].
    destruct color_array as [| c color_array]; [congruence|].
    assert (Hcount : exists n,
               ((length (c :: color_array) + 3 - 1) / 3 = S n)%nat).
    { cbn [length].
      destruct ((S (length color_array) + 3 - 1) / 3)%nat as [| n] eqn:E;
        [|now exists n].
      apply Nat.div_small_iff in E; lia. }
    destruct Hcount as [n ->]. reflexivity.
  - reflexivity.
Qed.

Lemma load_png_needs_alpha_witness :
  load_png 1 1 [x0a; x14; x1e] 8 false = TypeError.
Proof.
  apply (proj1 (proj2 (proj2 (load_png_needs_alpha 1 1 [x0a; x14; x1e])))).
  discriminate.
Defined.

(** ** Hexadecimal colour codes *)





